(** * StudyTimer: the identity and row-level authorization model

    A shallow embedding of
    [studytimer-api/supabase/migrations/20260101120000_initial_schema.sql]:
    the two relations [public.users] and [public.devices], their
    constraints, the seven row-level security policies, the three trigger
    functions and the four triggers.

    A table is the list of its rows in heap order.  A statement is a
    function from the database to a result: either a new database, or the
    SQL error that aborts it (and rolls the statement back). *)

From stdpp Require Import base option list gmap strings.

Local Open Scope string_scope.
Local Open Scope Z_scope.

(** ** Column types *)

(** [uuid] is a 128-bit value, [timestamptz] a count of microseconds,
    [text] a character string.  A nullable column holds an [option]. *)
Definition uuid := N.
Definition timestamptz := Z.
Definition text := string.

(** ** SQL errors and the result of a statement *)

Inductive sqlerror :=
  | insufficient_privilege (relname : string)  (* new row violates row-level security policy *)
  | not_null_violation (colname : string)
  | unique_violation (conname : string)
  | foreign_key_violation (conname : string).

Inductive result (A : Type) :=
  | Ok (a : A)
  | Err (e : sqlerror).
Arguments Ok {A} a.
Arguments Err {A} e.

#[global] Instance result_ret : MRet result := fun _ a => Ok a.
#[global] Instance result_bind : MBind result := fun _ _ f m =>
  match m with
  | Ok a => f a
  | Err e => Err e
  end.

Definition is_ok {A} (r : result A) : bool :=
  match r with Ok _ => true | Err _ => false end.

(** ** Roles and the JWT subject *)

Inductive pg_role := anon | authenticated | table_owner.

(** Who runs a statement.  An API caller is either unauthenticated (role
    [anon], no JWT subject) or authenticated (role [authenticated],
    [auth.uid()] is the subject).  [Definer] is the owner of the tables:
    the bodies of the SECURITY DEFINER functions and the referential
    actions run as the owner, to whom row security does not apply (the
    migration says ENABLE, not FORCE, ROW LEVEL SECURITY). *)
Inductive principal :=
  | Anon
  | Authenticated (sub : uuid)
  | Definer.

Definition current_role (who : principal) : pg_role :=
  match who with
  | Anon => anon
  | Authenticated _ => authenticated
  | Definer => table_owner
  end.

(** [auth.uid()] *)
Definition auth_uid (who : principal) : option uuid :=
  match who with
  | Authenticated sub => Some sub
  | _ => None
  end.

Definition bypasses_rls (who : principal) : bool :=
  match who with Definer => true | _ => false end.

(** ** Row-level security policies *)

Inductive relation := public_users | public_devices.
Inductive command := SELECT | INSERT | UPDATE | DELETE.

(** The uuid columns a policy expression may name. *)
Inductive column := col_id | col_user_id.

(** The only expression the migration uses: [auth.uid() = <column>]. *)
Inductive qual := auth_uid_eq (c : column).

Record policy := {
  polname : string;
  polrelation : relation;
  polpermissive : bool;
  polcmd : command;
  polroles : list pg_role;
  polqual : option qual;         (* USING *)
  polwithcheck : option qual     (* WITH CHECK *)
}.

Definition policies : list policy := [
  {| polname := "Users can view their own data";
     polrelation := public_users; polpermissive := true; polcmd := SELECT;
     polroles := [authenticated];
     polqual := Some (auth_uid_eq col_id); polwithcheck := None |};
  {| polname := "Users can update their data";
     polrelation := public_users; polpermissive := true; polcmd := UPDATE;
     polroles := [authenticated];
     polqual := Some (auth_uid_eq col_id);
     polwithcheck := Some (auth_uid_eq col_id) |};
  {| polname := "Users can delete their own data";
     polrelation := public_users; polpermissive := true; polcmd := DELETE;
     polroles := [authenticated];
     polqual := Some (auth_uid_eq col_id); polwithcheck := None |};
  {| polname := "Users can view their own devices";
     polrelation := public_devices; polpermissive := true; polcmd := SELECT;
     polroles := [authenticated];
     polqual := Some (auth_uid_eq col_user_id); polwithcheck := None |};
  {| polname := "Users can create their own devices";
     polrelation := public_devices; polpermissive := true; polcmd := INSERT;
     polroles := [authenticated];
     polqual := None;
     polwithcheck := Some (auth_uid_eq col_user_id) |};
  {| polname := "Users can update their own devices";
     polrelation := public_devices; polpermissive := true; polcmd := UPDATE;
     polroles := [authenticated];
     polqual := Some (auth_uid_eq col_user_id);
     polwithcheck := Some (auth_uid_eq col_user_id) |};
  {| polname := "Users can delete their own devices";
     polrelation := public_devices; polpermissive := true; polcmd := DELETE;
     polroles := [authenticated];
     polqual := Some (auth_uid_eq col_user_id); polwithcheck := None |}
].

(** ALTER TABLE ... ENABLE ROW LEVEL SECURITY, on both relations. *)
Definition relrowsecurity (rel : relation) : bool :=
  match rel with public_users => true | public_devices => true end.

Definition relation_eqb (a b : relation) : bool :=
  match a, b with
  | public_users, public_users | public_devices, public_devices => true
  | _, _ => false
  end.

Definition command_eqb (a b : command) : bool :=
  match a, b with
  | SELECT, SELECT | INSERT, INSERT | UPDATE, UPDATE | DELETE, DELETE => true
  | _, _ => false
  end.

Definition pg_role_eqb (a b : pg_role) : bool :=
  match a, b with
  | anon, anon | authenticated, authenticated | table_owner, table_owner => true
  | _, _ => false
  end.

(** A policy applies to a statement when it is on the relation, for the
    command, and granted TO the current role. *)
Definition applies (who : principal) (rel : relation) (cmd : command)
    (p : policy) : bool :=
  relation_eqb (polrelation p) rel
  && command_eqb (polcmd p) cmd
  && existsb (pg_role_eqb (current_role who)) (polroles p).

(** SQL equality is three-valued; a policy admits a row only when its
    expression is true, so NULL on either side counts as a refusal. *)
Definition eval_qual (who : principal) (cols : column -> option uuid)
    (q : qual) : bool :=
  match q with
  | auth_uid_eq c =>
      match auth_uid who, cols c with
      | Some a, Some b => N.eqb a b
      | _, _ => false
      end
  end.

(** Permissive policies are OR-ed, restrictive ones AND-ed; with no
    permissive policy that applies the row is refused (default deny). *)
Definition combine (who : principal) (cols : column -> option uuid)
    (expr : policy -> option qual) (ps : list policy) : bool :=
  existsb (fun p => from_option (eval_qual who cols) true (expr p))
          (List.filter polpermissive ps)
  && forallb (fun p => from_option (eval_qual who cols) true (expr p))
             (List.filter (fun p => negb (polpermissive p)) ps).

(** USING: may the statement see (and so touch) the existing row? *)
Definition using_passes (who : principal) (rel : relation) (cmd : command)
    (cols : column -> option uuid) : bool :=
  if bypasses_rls who || negb (relrowsecurity rel) then true
  else combine who cols polqual (List.filter (applies who rel cmd) policies).

(** WITH CHECK: may the statement store the new row?  A policy without a
    WITH CHECK clause checks new rows with its USING expression. *)
Definition check_passes (who : principal) (rel : relation) (cmd : command)
    (cols : column -> option uuid) : bool :=
  if bypasses_rls who || negb (relrowsecurity rel) then true
  else combine who cols
         (fun p => match polwithcheck p with Some q => Some q | None => polqual p end)
         (List.filter (applies who rel cmd) policies).

(** ** The transaction environment *)

(** [NOW()] and [CURRENT_TIMESTAMP] both read the start time of the
    current transaction; [gen_random_uuid()] is the value pgcrypto draws
    for the statement. *)
Record env := {
  NOW : timestamptz;
  gen_random_uuid : uuid
}.

(** A column of an INSERT: left out of the column list (the column
    default applies), or given a value, which may be NULL. *)
Inductive field (A : Type) :=
  | DEFAULT
  | VALUE (v : option A).
Arguments DEFAULT {A}.
Arguments VALUE {A} v.

Definition or_default {A} (f : field A) (d : option A) : option A :=
  match f with
  | DEFAULT => d
  | VALUE v => v
  end.

(** ** What the generic row machinery needs from a relation *)

(** A [tuple] is a candidate row: every column is nullable until the NOT
    NULL constraints have been checked; a [row] is a stored one. *)
Class Table (row tuple : Type) := {
  relid : relation;
  relname : string;
  heap_tuple : row -> tuple;
  not_null : tuple -> result row;
  uuid_cols : tuple -> column -> option uuid;
  (* unique indexes in creation order: name, and whether two rows collide *)
  unique_indexes : list (string * (row -> row -> bool));
  set_updated_at : option timestamptz -> tuple -> tuple
}.

(** [public.handle_updated_at()]:
    [NEW.updated_at = NOW(); RETURN NEW;] *)
Definition handle_updated_at `{Table row tuple} (e : env) (NEW : tuple) : tuple :=
  set_updated_at (Some (NOW e)) NEW.

Section Heap.
Context `{T : Table row tuple}.

Definition row_cols (r : row) : column -> option uuid :=
  uuid_cols (heap_tuple r).

(** The first unique index on which [r] collides with a row of [others]. *)
Definition violated_index (r : row) (others : list row) : option string :=
  fst <$> List.find (fun ix => existsb (snd ix r) others) unique_indexes.

Definition check_unique (r : row) (others : list row) : result row :=
  match violated_index r others with
  | Some conname => Err (unique_violation conname)
  | None => Ok r
  end.

(** A statement with a WHERE clause reads the rows it works on, so the
    SELECT policies filter them as well as the policies of its command. *)
Definition targets (who : principal) (cmd : command) (w : row -> bool)
    (r : row) : bool :=
  using_passes who relid SELECT (row_cols r)
  && using_passes who relid cmd (row_cols r)
  && w r.

(** A stored row is hidden from [who] when no USING clause lets a read,
    update or delete of [who] through to it. *)
Definition hidden_from (who : principal) (r : row) : Prop :=
  forall cmd, cmd <> INSERT -> using_passes who relid cmd (row_cols r) = false.

(** SELECT ... WHERE w: rows the policies hide are filtered out silently. *)
Definition select_rows (who : principal) (w : row -> bool) (t : list row)
    : list row :=
  List.filter (targets who SELECT w) t.

(** INSERT of one tuple: WITH CHECK, then NOT NULL, then the unique
    indexes.  Neither relation has an insert trigger. *)
Definition insert_row (who : principal) (new : tuple) (t : list row)
    : result row :=
  if check_passes who relid INSERT (uuid_cols new) then
    r ← not_null new;
    check_unique r t
  else Err (insufficient_privilege relname).

(** UPDATE of one row: SET, then the BEFORE UPDATE ... FOR EACH ROW
    trigger, then WITH CHECK on the row the trigger returned (the UPDATE
    policies and, as the statement reads the table, the SELECT policies),
    then NOT NULL, then the unique indexes against the other live rows. *)
Definition update_row (who : principal) (e : env) (assign : row -> tuple)
    (old : row) (others : list row) : result row :=
  let NEW := handle_updated_at e (assign old) in
  if check_passes who relid UPDATE (uuid_cols NEW)
     && using_passes who relid SELECT (uuid_cols NEW) then
    r ← not_null NEW;
    check_unique r others
  else Err (insufficient_privilege relname).

(** UPDATE ... SET assign WHERE w, row by row in heap order.  [done] are
    the rows already passed (in their new state), [todo] the rows to come;
    the result is the new state of [todo] and the (old, new) pairs of the
    rows that were updated. *)
Fixpoint update_rows (who : principal) (e : env) (w : row -> bool)
    (assign : row -> tuple) (done todo : list row)
    : result (list row * list (row * row)) :=
  match todo with
  | [] => Ok ([], [])
  | r :: rest =>
      if targets who UPDATE w r then
        new ← update_row who e assign r (done ++ rest);
        '(out, changed) ← update_rows who e w assign (done ++ [new]) rest;
        Ok (new :: out, (r, new) :: changed)
      else
        '(out, changed) ← update_rows who e w assign (done ++ [r]) rest;
        Ok (r :: out, changed)
  end.

(** What a successful UPDATE did to a row: a targeted row went through
    [update_row], any other row is as it was. *)
Definition row_updated (who : principal) (e : env) (w : row -> bool)
    (assign : row -> tuple) (old new : row) : Prop :=
  if targets who UPDATE w old
  then exists others, update_row who e assign old others = Ok new
  else new = old.

(** DELETE ... WHERE w: the rows that stay and the rows that go. *)
Definition delete_rows (who : principal) (w : row -> bool) (t : list row)
    : list row * list row :=
  (List.filter (fun r => negb (targets who DELETE w r)) t,
   List.filter (targets who DELETE w) t).

End Heap.

(** ** public.users *)

Module users.

Record row := {
  id : uuid;
  email : option text;
  display_name : option text;
  created_at : option timestamptz;
  updated_at : option timestamptz;
  photo_url : option text
}.

Record tuple := {
  t_id : option uuid;
  t_email : option text;
  t_display_name : option text;
  t_created_at : option timestamptz;
  t_updated_at : option timestamptz;
  t_photo_url : option text
}.

(** The VALUES of an INSERT INTO public.users. *)
Record values := {
  v_id : field uuid;
  v_email : field text;
  v_display_name : field text;
  v_created_at : field timestamptz;
  v_updated_at : field timestamptz;
  v_photo_url : field text
}.

(** Column defaults: [created_at] and [updated_at] DEFAULT
    CURRENT_TIMESTAMP; the other columns have none, so NULL. *)
Definition defaults (e : env) (v : values) : tuple :=
  {| t_id := or_default (v_id v) None;
     t_email := or_default (v_email v) None;
     t_display_name := or_default (v_display_name v) None;
     t_created_at := or_default (v_created_at v) (Some (NOW e));
     t_updated_at := or_default (v_updated_at v) (Some (NOW e));
     t_photo_url := or_default (v_photo_url v) None |}.

Definition to_tuple (r : row) : tuple :=
  {| t_id := Some (id r);
     t_email := email r;
     t_display_name := display_name r;
     t_created_at := created_at r;
     t_updated_at := updated_at r;
     t_photo_url := photo_url r |}.

(** [id uuid NOT NULL] *)
Definition check_not_null (t : tuple) : result row :=
  match t_id t with
  | None => Err (not_null_violation "id")
  | Some i =>
      Ok {| id := i;
            email := t_email t;
            display_name := t_display_name t;
            created_at := t_created_at t;
            updated_at := t_updated_at t;
            photo_url := t_photo_url t |}
  end.

Definition cols (t : tuple) (c : column) : option uuid :=
  match c with
  | col_id => t_id t
  | col_user_id => None
  end.

Definition touch (ts : option timestamptz) (t : tuple) : tuple :=
  {| t_id := t_id t;
     t_email := t_email t;
     t_display_name := t_display_name t;
     t_created_at := t_created_at t;
     t_updated_at := ts;
     t_photo_url := t_photo_url t |}.

(** [users_pkey]: UNIQUE btree (id) *)
Definition users_pkey (a b : row) : bool := N.eqb (id a) (id b).

#[global] Instance table : Table row tuple := {|
  relid := public_users;
  relname := "users";
  heap_tuple := to_tuple;
  not_null := check_not_null;
  uuid_cols := cols;
  unique_indexes := [("users_pkey", users_pkey)];
  set_updated_at := touch
|}.

End users.

(** ** public.devices *)

Module devices.

Record row := {
  id : uuid;
  user_id : uuid;
  fcm_token : text;
  created_at : option timestamptz;
  updated_at : option timestamptz
}.

Record tuple := {
  t_id : option uuid;
  t_user_id : option uuid;
  t_fcm_token : option text;
  t_created_at : option timestamptz;
  t_updated_at : option timestamptz
}.

(** The VALUES of an INSERT INTO public.devices. *)
Record values := {
  v_id : field uuid;
  v_user_id : field uuid;
  v_fcm_token : field text;
  v_created_at : field timestamptz;
  v_updated_at : field timestamptz
}.

(** Column defaults: [id] DEFAULT gen_random_uuid(); [created_at] and
    [updated_at] DEFAULT CURRENT_TIMESTAMP. *)
Definition defaults (e : env) (v : values) : tuple :=
  {| t_id := or_default (v_id v) (Some (gen_random_uuid e));
     t_user_id := or_default (v_user_id v) None;
     t_fcm_token := or_default (v_fcm_token v) None;
     t_created_at := or_default (v_created_at v) (Some (NOW e));
     t_updated_at := or_default (v_updated_at v) (Some (NOW e)) |}.

Definition to_tuple (r : row) : tuple :=
  {| t_id := Some (id r);
     t_user_id := Some (user_id r);
     t_fcm_token := Some (fcm_token r);
     t_created_at := created_at r;
     t_updated_at := updated_at r |}.

(** [id], [user_id] and [fcm_token] are NOT NULL. *)
Definition check_not_null (t : tuple) : result row :=
  match t_id t with
  | None => Err (not_null_violation "id")
  | Some i =>
      match t_user_id t with
      | None => Err (not_null_violation "user_id")
      | Some u =>
          match t_fcm_token t with
          | None => Err (not_null_violation "fcm_token")
          | Some tok =>
              Ok {| id := i;
                    user_id := u;
                    fcm_token := tok;
                    created_at := t_created_at t;
                    updated_at := t_updated_at t |}
          end
      end
  end.

Definition cols (t : tuple) (c : column) : option uuid :=
  match c with
  | col_id => t_id t
  | col_user_id => t_user_id t
  end.

Definition touch (ts : option timestamptz) (t : tuple) : tuple :=
  {| t_id := t_id t;
     t_user_id := t_user_id t;
     t_fcm_token := t_fcm_token t;
     t_created_at := t_created_at t;
     t_updated_at := ts |}.

(** [devices_pkey]: UNIQUE btree (id) *)
Definition devices_pkey (a b : row) : bool := N.eqb (id a) (id b).

(** [devices_user_id_fcm_token_key]: UNIQUE btree (user_id, fcm_token) *)
Definition devices_user_id_fcm_token_key (a b : row) : bool :=
  N.eqb (user_id a) (user_id b) && String.eqb (fcm_token a) (fcm_token b).

#[global] Instance table : Table row tuple := {|
  relid := public_devices;
  relname := "devices";
  heap_tuple := to_tuple;
  not_null := check_not_null;
  uuid_cols := cols;
  unique_indexes :=
    [("devices_pkey", devices_pkey);
     ("devices_user_id_fcm_token_key", devices_user_id_fcm_token_key)];
  set_updated_at := touch
|}.

End devices.

(** ** The database *)

Record db := {
  tbl_users : list users.row;
  tbl_devices : list devices.row
}.

Definition empty_db : db := {| tbl_users := []; tbl_devices := [] |}.

(** [devices_user_id_fkey]: FOREIGN KEY (user_id) REFERENCES
    public.users(id) ON DELETE CASCADE.  The referential checks and
    actions read and write as the owner of the tables, whatever the role
    of the statement that fired them. *)
Definition references_user (us : list users.row) (d : devices.row) : bool :=
  existsb (fun u => N.eqb (users.id u) (devices.user_id d)) us.

Definition referenced_by (ds : list devices.row) (u : users.row) : bool :=
  existsb (fun d => N.eqb (devices.user_id d) (users.id u)) ds.

(** *** Statements on public.users *)

Definition select_users (who : principal) (w : users.row -> bool) (s : db)
    : list users.row :=
  select_rows who w (tbl_users s).

Definition insert_users (who : principal) (e : env) (v : users.values)
    (s : db) : result db :=
  r ← insert_row who (users.defaults e v) (tbl_users s);
  Ok {| tbl_users := tbl_users s ++ [r]; tbl_devices := tbl_devices s |}.

(** The foreign key has no ON UPDATE action: at the end of the statement
    a [users] row whose [id] changed must not leave a [devices] row that
    points to the old [id], unless some [users] row now carries it. *)
Definition key_update_allowed (us' : list users.row) (ds : list devices.row)
    (ch : users.row * users.row) : bool :=
  N.eqb (users.id (snd ch)) (users.id (fst ch))
  || negb (referenced_by ds (fst ch))
  || existsb (fun u => N.eqb (users.id u) (users.id (fst ch))) us'.

(** The BEFORE UPDATE trigger [on_users_updated] runs inside [update_row]. *)
Definition update_users (who : principal) (e : env) (w : users.row -> bool)
    (assign : users.row -> users.tuple) (s : db) : result (db * nat) :=
  '(us', changed) ← update_rows who e w assign [] (tbl_users s);
  if forallb (key_update_allowed us' (tbl_devices s)) changed then
    Ok ({| tbl_users := us'; tbl_devices := tbl_devices s |}, length changed)
  else Err (foreign_key_violation "devices_user_id_fkey").

(** Deleting [users] rows deletes, by ON DELETE CASCADE and in the same
    statement, every [devices] row that references one of them. *)
Definition delete_users (who : principal) (w : users.row -> bool) (s : db)
    : result (db * nat) :=
  let '(kept, gone) := delete_rows who w (tbl_users s) in
  Ok ({| tbl_users := kept;
         tbl_devices :=
           List.filter (fun d => negb (references_user gone d)) (tbl_devices s) |},
      length gone).

(** *** Statements on public.devices *)

Definition select_devices (who : principal) (w : devices.row -> bool) (s : db)
    : list devices.row :=
  select_rows who w (tbl_devices s).

Definition insert_devices (who : principal) (e : env) (v : devices.values)
    (s : db) : result db :=
  r ← insert_row who (devices.defaults e v) (tbl_devices s);
  if references_user (tbl_users s) r then
    Ok {| tbl_users := tbl_users s; tbl_devices := tbl_devices s ++ [r] |}
  else Err (foreign_key_violation "devices_user_id_fkey").

(** On update the foreign key is checked for the rows whose [user_id]
    changed. *)
Definition owner_update_allowed (us : list users.row)
    (ch : devices.row * devices.row) : bool :=
  N.eqb (devices.user_id (snd ch)) (devices.user_id (fst ch))
  || references_user us (snd ch).

(** The BEFORE UPDATE trigger [on_devices_updated] runs inside [update_row]. *)
Definition update_devices (who : principal) (e : env)
    (w : devices.row -> bool) (assign : devices.row -> devices.tuple)
    (s : db) : result (db * nat) :=
  '(ds', changed) ← update_rows who e w assign [] (tbl_devices s);
  if forallb (owner_update_allowed (tbl_users s)) changed then
    Ok ({| tbl_users := tbl_users s; tbl_devices := ds' |}, length changed)
  else Err (foreign_key_violation "devices_user_id_fkey").

Definition delete_devices (who : principal) (w : devices.row -> bool)
    (s : db) : result (db * nat) :=
  let '(kept, gone) := delete_rows who w (tbl_devices s) in
  Ok ({| tbl_users := tbl_users s; tbl_devices := kept |}, length gone).

(** The database after a statement: an error rolls the statement back. *)
Definition state_after {A} (s : db) (r : result A) (new : A -> db) : db :=
  match r with
  | Ok a => new a
  | Err _ => s
  end.

(** ** The identity provider's table and the trigger functions *)

(** A [jsonb] object maps its keys to values; [->>] reads a value as text,
    so a value is kept as the text it reads as, apart from JSON null. *)
Inductive jsonb_value :=
  | json_null
  | json_text (txt : text).

Inductive jsonb :=
  | jsonb_object (members : gmap string jsonb_value)
  | jsonb_other.                 (* a scalar or an array *)

(** [j ->> key]: NULL when [j] is NULL or not an object, when the key is
    missing, and when the value is JSON null. *)
Definition jsonb_field_text (j : option jsonb) (key : string) : option text :=
  match j with
  | Some (jsonb_object members) =>
      match members !! key with
      | Some (json_text txt) => Some txt
      | _ => None
      end
  | _ => None
  end.

Module auth.

(** The columns of [auth.users] that the migration reads. *)
Record users := {
  id : uuid;
  email : option text;
  raw_user_meta_data : option jsonb
}.

End auth.

(** [public.handle_new_user()], SECURITY DEFINER:
    [INSERT INTO public.users (id, display_name, email, photo_url)
     VALUES (NEW.id, NEW.raw_user_meta_data->>'full_name', NEW.email,
             NEW.raw_user_meta_data->>'avatar_url'); RETURN NEW;] *)
Definition handle_new_user (e : env) (NEW : auth.users) (s : db)
    : result (db * auth.users) :=
  s' ← insert_users Definer e
         {| users.v_id := VALUE (Some (auth.id NEW));
            users.v_display_name :=
              VALUE (jsonb_field_text (auth.raw_user_meta_data NEW) "full_name");
            users.v_email := VALUE (auth.email NEW);
            users.v_photo_url :=
              VALUE (jsonb_field_text (auth.raw_user_meta_data NEW) "avatar_url");
            users.v_created_at := DEFAULT;
            users.v_updated_at := DEFAULT |} s;
  Ok (s', NEW).

(** [public.handle_deleted_user()], SECURITY DEFINER:
    [DELETE FROM public.users WHERE id = OLD.id; RETURN OLD;] *)
Definition handle_deleted_user (OLD : auth.users) (s : db)
    : result (db * auth.users) :=
  '(s', _) ← delete_users Definer (fun u => N.eqb (users.id u) (auth.id OLD)) s;
  Ok (s', OLD).

(** [on_auth_user_created]: AFTER INSERT ON auth.users FOR EACH ROW.
    [on_auth_user_deleted]: AFTER DELETE ON auth.users FOR EACH ROW.
    The database once the provider's event has been handled; when the
    trigger function raises, the whole transaction is rolled back. *)
Definition on_auth_user_created (e : env) (NEW : auth.users) (s : db) : db :=
  state_after s (handle_new_user e NEW s) fst.

Definition on_auth_user_deleted (OLD : auth.users) (s : db) : db :=
  state_after s (handle_deleted_user OLD s) fst.

(** ** Statements as data, and what their issuer observes *)

Inductive statement :=
  | SelectUsers (w : users.row -> bool)
  | InsertUsers (v : users.values)
  | UpdateUsers (w : users.row -> bool) (assign : users.row -> users.tuple)
  | DeleteUsers (w : users.row -> bool)
  | SelectDevices (w : devices.row -> bool)
  | InsertDevices (v : devices.values)
  | UpdateDevices (w : devices.row -> bool) (assign : devices.row -> devices.tuple)
  | DeleteDevices (w : devices.row -> bool).

Inductive outcome :=
  | users_rows (rs : list users.row)
  | devices_rows (rs : list devices.row)
  | affected (n : nat)               (* the command tag: INSERT 0 n, UPDATE n, DELETE n *)
  | raised (e : sqlerror).

Definition tagged (s : db) (r : result (db * nat)) : outcome * db :=
  match r with
  | Ok (s', n) => (affected n, s')
  | Err e => (raised e, s)
  end.

Definition execute (who : principal) (e : env) (stmt : statement) (s : db)
    : outcome * db :=
  match stmt with
  | SelectUsers w => (users_rows (select_users who w s), s)
  | InsertUsers v => tagged s (s' ← insert_users who e v s; Ok (s', 1%nat))
  | UpdateUsers w assign => tagged s (update_users who e w assign s)
  | DeleteUsers w => tagged s (delete_users who w s)
  | SelectDevices w => (devices_rows (select_devices who w s), s)
  | InsertDevices v => tagged s (s' ← insert_devices who e v s; Ok (s', 1%nat))
  | UpdateDevices w assign => tagged s (update_devices who e w assign s)
  | DeleteDevices w => tagged s (delete_devices who w s)
  end.

(** The rows a statement's WHERE clause names, whether or not the issuer
    may see them. *)
Definition named_users (stmt : statement) (s : db) : list users.row :=
  match stmt with
  | SelectUsers w | UpdateUsers w _ | DeleteUsers w => List.filter w (tbl_users s)
  | _ => []
  end.

Definition named_devices (stmt : statement) (s : db) : list devices.row :=
  match stmt with
  | SelectDevices w | UpdateDevices w _ | DeleteDevices w =>
      List.filter w (tbl_devices s)
  | _ => []
  end.

Definition returned_users (o : outcome) : list users.row :=
  match o with users_rows rs => rs | _ => [] end.

Definition returned_devices (o : outcome) : list devices.row :=
  match o with devices_rows rs => rs | _ => [] end.

(** What a refused statement looks like to its issuer: no row comes back,
    no row is affected, or the new row is turned down by row security. *)
Definition denied (o : outcome) : bool :=
  match o with
  | users_rows [] | devices_rows [] | affected O => true
  | raised (insufficient_privilege _) => true
  | _ => false
  end.

(** Reads, updates and deletes: the statements that work on stored rows. *)
Definition on_stored_rows (stmt : statement) : bool :=
  match stmt with
  | InsertUsers _ | InsertDevices _ => false
  | _ => true
  end.

(** ** Declared constraints as state invariants *)

Definition fk_valid (s : db) : Prop :=
  Forall (fun d => references_user (tbl_users s) d = true) (tbl_devices s).

(** Number of [users] rows with identity key [k], and of [devices] rows
    owned by [k]. *)
Definition count_users (k : uuid) (s : db) : nat :=
  length (List.filter (fun u => N.eqb (users.id u) k) (tbl_users s)).

Definition count_devices_of (k : uuid) (s : db) : nat :=
  length (List.filter (fun d => N.eqb (devices.user_id d) k) (tbl_devices s)).

(** The databases that statements and provider events can produce,
    starting from the empty one the migration creates. *)
Inductive reachable : db -> Prop :=
  | reach_migrated : reachable empty_db
  | reach_statement who e stmt s :
      reachable s -> reachable (snd (execute who e stmt s))
  | reach_created e NEW s :
      reachable s -> reachable (on_auth_user_created e NEW s)
  | reach_deleted OLD s :
      reachable s -> reachable (on_auth_user_deleted OLD s).

(** SQL [<] on nullable timestamps: true only when both sides are known. *)
Definition ts_lt (a b : option timestamptz) : bool :=
  match a, b with
  | Some x, Some y => Z.ltb x y
  | _, _ => false
  end.

(** ** A worked scenario

    Identity [u1] signs up with an e-mail address and no display name and
    registers the push token "tok-1"; [u2] is a second identity. *)

Definition u1 : uuid := 1%N.
Definition u2 : uuid := 2%N.

Definition t0 : env := {| NOW := 1000; gen_random_uuid := 501%N |}.
Definition t1 : env := {| NOW := 2000; gen_random_uuid := 502%N |}.

Definition u1_account : auth.users :=
  {| auth.id := u1;
     auth.email := Some "a@example.com";
     auth.raw_user_meta_data :=
       Some (jsonb_object {[ "avatar_url" := json_text "https://example.com/a.png" ]}) |}.

Definition u2_account : auth.users :=
  {| auth.id := u2; auth.email := None; auth.raw_user_meta_data := None |}.

Definition register (owner : uuid) (token : text) : devices.values :=
  {| devices.v_id := DEFAULT;
     devices.v_user_id := VALUE (Some owner);
     devices.v_fcm_token := VALUE (Some token);
     devices.v_created_at := DEFAULT;
     devices.v_updated_at := DEFAULT |}.

Definition u1_row : users.row :=
  {| users.id := u1;
     users.email := Some "a@example.com";
     users.display_name := None;
     users.created_at := Some 1000;
     users.updated_at := Some 1000;
     users.photo_url := Some "https://example.com/a.png" |}.

Definition u1_device : devices.row :=
  {| devices.id := 501%N;
     devices.user_id := u1;
     devices.fcm_token := "tok-1";
     devices.created_at := Some 1000;
     devices.updated_at := Some 1000 |}.

(** After [u1] signed up, and after [u1] registered "tok-1". *)
Definition db_signed_up : db := on_auth_user_created t0 u1_account empty_db.

Definition db_registered : db :=
  snd (execute (Authenticated u1) t0 (InsertDevices (register u1 "tok-1")) db_signed_up).

Definition t2 : env := {| NOW := 3000; gen_random_uuid := 503%N |}.

(** After [u2] signed up as well. *)
Definition db_two_accounts : db := on_auth_user_created t1 u2_account db_registered.

(** An INSERT that names every column, timestamps included. *)
Definition backdated (owner : uuid) (token : text) (c u : option timestamptz)
    : devices.values :=
  {| devices.v_id := VALUE (Some 600%N);
     devices.v_user_id := VALUE (Some owner);
     devices.v_fcm_token := VALUE (Some token);
     devices.v_created_at := VALUE c;
     devices.v_updated_at := VALUE u |}.

(** SET fcm_token = token: every other column keeps its value. *)
Definition set_fcm_token (token : text) (d : devices.row) : devices.tuple :=
  {| devices.t_id := Some (devices.id d);
     devices.t_user_id := Some (devices.user_id d);
     devices.t_fcm_token := Some token;
     devices.t_created_at := devices.created_at d;
     devices.t_updated_at := devices.updated_at d |}.

(** SET updated_at = ts: the caller names the protected column itself. *)
Definition set_user_updated_at (ts : option timestamptz) (u : users.row)
    : users.tuple :=
  users.touch ts (users.to_tuple u).

(** An INSERT INTO public.users that names every column; only the owner
    of the table (a migration, a seed script) can run one. *)
Definition imported_user : users.values :=
  {| users.v_id := VALUE (Some 9%N);
     users.v_email := VALUE None;
     users.v_display_name := VALUE (Some "Imported");
     users.v_created_at := VALUE (Some 7);
     users.v_updated_at := VALUE None;
     users.v_photo_url := DEFAULT |}.

(** [u1] registers a second device and dates it into the future. *)
Definition db_backdated : db :=
  snd (execute (Authenticated u1) t1
         (InsertDevices (backdated u1 "tok-2" (Some 5) (Some 9999))) db_registered).

Definition db_imported : db :=
  state_after db_registered
    (insert_users Definer t1 imported_user db_registered) (fun s' => s').

(** [u1] edits the profile and tries to set [updated_at] by hand; [u1]
    refreshes the token of the first device. *)
Definition db_profile_edited : db :=
  snd (execute (Authenticated u1) t2
         (UpdateUsers (fun _ => true) (set_user_updated_at (Some 5))) db_registered).

Definition db_token_refreshed : db :=
  snd (execute (Authenticated u1) t2
         (UpdateDevices (fun d => N.eqb (devices.id d) 501) (set_fcm_token "tok-1b"))
         db_registered).

(** SET user_id = owner: an attempt to hand a device to another user. *)
Definition set_user_id (owner : uuid) (d : devices.row) : devices.tuple :=
  {| devices.t_id := Some (devices.id d);
     devices.t_user_id := Some owner;
     devices.t_fcm_token := Some (devices.fcm_token d);
     devices.t_created_at := devices.created_at d;
     devices.t_updated_at := devices.updated_at d |}.

(** ** The unique indexes as state invariants *)

(** The key of [devices_user_id_fcm_token_key]. *)
Definition device_pair (d : devices.row) : uuid * text :=
  (devices.user_id d, devices.fcm_token d).

(** [users_pkey], [devices_pkey] and [devices_user_id_fcm_token_key]: no
    two stored rows share a key. *)
Definition unique_valid (s : db) : Prop :=
  NoDup (users.id <$> tbl_users s)
  /\ NoDup (devices.id <$> tbl_devices s)
  /\ NoDup (device_pair <$> tbl_devices s).

(** A registration that forgets the token. *)
Definition tokenless (owner : uuid) : devices.values :=
  {| devices.v_id := DEFAULT;
     devices.v_user_id := VALUE (Some owner);
     devices.v_fcm_token := DEFAULT;
     devices.v_created_at := DEFAULT;
     devices.v_updated_at := DEFAULT |}.

(** [u1] deletes the own profile (the identity provider's account stays). *)
Definition db_profile_deleted : db :=
  snd (execute (Authenticated u1) t1 (DeleteUsers (fun _ => true)) db_two_accounts).

(** [u2] tries to register a device under the [id] of [u1]'s device. *)
Definition squatting : devices.values :=
  {| devices.v_id := VALUE (Some 501%N);
     devices.v_user_id := VALUE (Some u2);
     devices.v_fcm_token := VALUE (Some "tok-7");
     devices.v_created_at := DEFAULT;
     devices.v_updated_at := DEFAULT |}.

(** SET display_name = name, created_at = ts: the owner rewrites the
    creation time of the profile. *)
Definition set_name_and_created_at (name : option text)
    (ts : option timestamptz) (u : users.row) : users.tuple :=
  {| users.t_id := Some (users.id u);
     users.t_email := users.email u;
     users.t_display_name := name;
     users.t_created_at := ts;
     users.t_updated_at := users.updated_at u;
     users.t_photo_url := users.photo_url u |}.

(** The device that [u1] back-dated. *)
Definition u1_second_device : devices.row :=
  {| devices.id := 600%N;
     devices.user_id := u1;
     devices.fcm_token := "tok-2";
     devices.created_at := Some 5;
     devices.updated_at := Some 9999 |}.

(** * The mobile client: the handlers of the sign-in screens

    The screens are React components; what follows embeds their event
    handlers.  A handler is the list of the effects it performs, in
    order: state setters, calls into the auth store, alerts.  Where a
    handler awaits a promise, how that promise settles is an argument. *)

Module js.

(** A caught value, as far as the handlers look at it: whether it is an
    [Error], and then its [message]. *)
Inductive thrown :=
  | Error (message : string)
  | not_an_Error.

Inductive settled :=
  | fulfilled
  | rejected (reason : thrown).

(** [error instanceof Error ? error.message : fallback] *)
Definition message_or (fallback : string) (error : thrown) : string :=
  match error with
  | Error message => message
  | not_an_Error => fallback
  end.

(** A plain object whose own properties hold strings or [undefined];
    [get o k] is [o.k] for the names the screens read, none of which is
    inherited from [Object.prototype]: the own property, or [undefined]
    without one. *)
Definition get (o : gmap string (option string)) (k : string) : option string :=
  match o !! k with
  | Some v => v
  | None => None
  end.

(** [o[k] = v] for a string [v]: the key "__proto__" reaches the setter
    of [Object.prototype], which ignores a string, so no property is
    made. *)
Definition set (o : gmap string (option string)) (k v : string)
    : gmap string (option string) :=
  if String.eqb k "__proto__" then o else <[k := Some v]> o.

(** Truthiness of a string-or-undefined: [undefined] and the empty
    string are falsy. *)
Definition truthy (v : option string) : bool :=
  match v with
  | Some s => negb (String.eqb s "")
  | None => false
  end.

End js.

(** ** app/(auth)/onboarding.tsx *)

Module Onboarding.

Inductive effect :=
  | signInWithGoogle
  | signInWithApple
  | Alert_alert (title message : string).

(** [onGoogleSignIn]: try { await signInWithGoogle() } catch (error)
    { Alert.alert('Google Sign In Failed', ...) } *)
Definition onGoogleSignIn (settles : js.settled) : list effect :=
  signInWithGoogle ::
  match settles with
  | js.fulfilled => []
  | js.rejected error =>
      [Alert_alert "Google Sign In Failed"
         (js.message_or "An unexpected error occurred" error)]
  end.

(** [onAppleSignIn]: as above, but the catch block returns at once when
    [error instanceof Error && error.message === 'Sign in was cancelled']. *)
Definition onAppleSignIn (settles : js.settled) : list effect :=
  signInWithApple ::
  match settles with
  | js.fulfilled => []
  | js.rejected error =>
      if match error with
         | js.Error message => String.eqb message "Sign in was cancelled"
         | js.not_an_Error => false
         end
      then []
      else [Alert_alert "Apple Sign In Failed"
              (js.message_or "An unexpected error occurred" error)]
  end.

Definition is_alert (eff : effect) : bool :=
  match eff with Alert_alert _ _ => true | _ => false end.

End Onboarding.

(** ** The e-mail sign-up form (the screen that renders [EmailAuth]) *)

Module EmailAuth.

(** A zod issue: [path] is an array of strings and numbers. *)
Inductive path_key :=
  | key (name : string)
  | index (i : N).

Record issue := {
  path : list path_key;
  message : string
}.

(** [signUpSchema.safeParse(payload)]: [result.success], and on failure
    [result.error.issues]. *)
Inductive safe_parse :=
  | success
  | failure (issues : list issue).

Record payload := {
  email : string;
  password : string;
  confirmPassword : string
}.

(** The body of the loop over the issues:
    [const field = issue.path[0];
     if (field && typeof field === 'string')
       nextErrors[field] = issue.message]. *)
Definition record_issue (nextErrors : gmap string (option string)) (i : issue)
    : gmap string (option string) :=
  match path i with
  | key name :: _ =>
      if String.eqb name "" then nextErrors
      else js.set nextErrors name (message i)
  | _ => nextErrors
  end.

(** [const nextErrors = {}; for (const issue of result.error.issues) ...] *)
Definition collect_errors (issues : list issue) : gmap string (option string) :=
  fold_left record_issue issues ∅.

(** Whether an issue is recorded under the field [f]. *)
Definition names (f : string) (i : issue) : bool :=
  match path i with
  | key name :: _ => String.eqb name f
  | _ => false
  end.

Inductive effect :=
  | setSignUpErrors (errors : gmap string (option string))
  | setIsSignUpSubmitting (submitting : bool)
  | signUp (email password : string)
  | Alert_alert (title message : string).

(** The three uncontrolled inputs and what the component keeps for them. *)
Inductive input := email_input | password_input | confirm_input.

Record form := {
  signUpEmailRef : string;
  signUpPasswordRef : string;
  signUpConfirmRef : string;
  signUpErrors : gmap string (option string);
  isSignUpSubmitting : bool
}.

Definition error_key (i : input) : string :=
  match i with
  | email_input => "email"
  | password_input => "password"
  | confirm_input => "confirmPassword"
  end.

(** The [error] prop of an input: [signUpErrors.email] and so on. *)
Definition shown_error (st : form) (i : input) : option string :=
  js.get (signUpErrors st) (error_key i).

Definition with_errors (errors : gmap string (option string)) (st : form) : form :=
  {| signUpEmailRef := signUpEmailRef st;
     signUpPasswordRef := signUpPasswordRef st;
     signUpConfirmRef := signUpConfirmRef st;
     signUpErrors := errors;
     isSignUpSubmitting := isSignUpSubmitting st |}.

Definition with_submitting (submitting : bool) (st : form) : form :=
  {| signUpEmailRef := signUpEmailRef st;
     signUpPasswordRef := signUpPasswordRef st;
     signUpConfirmRef := signUpConfirmRef st;
     signUpErrors := signUpErrors st;
     isSignUpSubmitting := submitting |}.

Definition with_ref (i : input) (value : string) (st : form) : form :=
  {| signUpEmailRef :=
       match i with email_input => value | _ => signUpEmailRef st end;
     signUpPasswordRef :=
       match i with password_input => value | _ => signUpPasswordRef st end;
     signUpConfirmRef :=
       match i with confirm_input => value | _ => signUpConfirmRef st end;
     signUpErrors := signUpErrors st;
     isSignUpSubmitting := isSignUpSubmitting st |}.

(** [onChangeText] of an input:
    [ref.current = value;
     if (signUpErrors.field)
       setSignUpErrors((prev) => ({ ...prev, field: undefined }))]. *)
Definition onChangeText (i : input) (value : string) (st : form) : form :=
  let st := with_ref i value st in
  if js.truthy (shown_error st i)
  then with_errors (<[error_key i := None]> (signUpErrors st)) st
  else st.

(** What an effect does to the component's state. *)
Definition perform (st : form) (eff : effect) : form :=
  match eff with
  | setSignUpErrors errors => with_errors errors st
  | setIsSignUpSubmitting submitting => with_submitting submitting st
  | signUp _ _ | Alert_alert _ _ => st
  end.

Section OnSignUp.

(** [String.prototype.trim], and the schema of
    [@/src/lib/validations/auth], which is not among the sources. *)
Variable trim : string -> string.
Variable signUpSchema_safeParse : payload -> safe_parse.

Definition current_payload (st : form) : payload :=
  {| email := trim (signUpEmailRef st);
     password := signUpPasswordRef st;
     confirmPassword := signUpConfirmRef st |}.

(** [onSignUp]: validate; on failure set the errors and return; otherwise
    clear the errors, raise the submitting flag, await [signUp], alert
    the result, and lower the flag in [finally]. *)
Definition onSignUp (st : form) (signUp_settles : js.settled) : list effect :=
  let payload := current_payload st in
  match signUpSchema_safeParse payload with
  | failure issues => [setSignUpErrors (collect_errors issues)]
  | success =>
      [setSignUpErrors ∅;
       setIsSignUpSubmitting true;
       signUp (email payload) (password payload)]
      ++ match signUp_settles with
         | js.fulfilled =>
             [Alert_alert "Check your email"
                "We sent you a confirmation link to verify your account."]
         | js.rejected error =>
             [Alert_alert "Sign Up Failed"
                (js.message_or "An unexpected error occurred" error)]
         end
      ++ [setIsSignUpSubmitting false]
  end.

(** The form once the handler has run to its end. *)
Definition press_sign_up (st : form) (signUp_settles : js.settled) : form :=
  fold_left perform (onSignUp st signUp_settles) st.

End OnSignUp.

Definition is_request (eff : effect) : bool :=
  match eff with signUp _ _ => true | _ => false end.

Definition is_alert (eff : effect) : bool :=
  match eff with Alert_alert _ _ => true | _ => false end.

(** For the worked examples only: a stand-in schema that asks for six
    characters and a matching confirmation, and a [trim] that does
    nothing. *)
Definition example_safeParse (p : payload) : safe_parse :=
  let short :=
    if Nat.ltb (String.length (password p)) 6
    then [{| path := [key "password"];
             message := "Password must be at least 6 characters" |}]
    else [] in
  let mismatch :=
    if String.eqb (password p) (confirmPassword p) then []
    else [{| path := [key "confirmPassword"];
             message := "Passwords do not match" |}] in
  match (short ++ mismatch)%list with
  | [] => success
  | issues => failure issues
  end.

Definition blank_form : form :=
  {| signUpEmailRef := ""; signUpPasswordRef := ""; signUpConfirmRef := "";
     signUpErrors := ∅; isSignUpSubmitting := false |}.

End EmailAuth.

(** * Properties *)

(** ** Policy evaluation *)

Lemma using_passes_users (A : uuid) (cmd : command) cols :
  cmd ≠ INSERT →
  using_passes (Authenticated A) public_users cmd cols
  = match cols col_id with Some b => N.eqb A b | None => false end.
Proof.
  intros Hcmd. destruct cmd; try congruence;
    unfold using_passes, combine; simpl;
    destruct (cols col_id); simpl;
    rewrite ?orb_false_r, ?andb_true_r; reflexivity.
Qed.

Lemma using_passes_devices (A : uuid) (cmd : command) cols :
  cmd ≠ INSERT →
  using_passes (Authenticated A) public_devices cmd cols
  = match cols col_user_id with Some b => N.eqb A b | None => false end.
Proof.
  intros Hcmd. destruct cmd; try congruence;
    unfold using_passes, combine; simpl;
    destruct (cols col_user_id); simpl;
    rewrite ?orb_false_r, ?andb_true_r; reflexivity.
Qed.

Lemma check_passes_users_update (A : uuid) cols :
  check_passes (Authenticated A) public_users UPDATE cols
  = match cols col_id with Some b => N.eqb A b | None => false end.
Proof.
  unfold check_passes, combine; simpl.
  destruct (cols col_id); simpl; rewrite ?orb_false_r, ?andb_true_r; reflexivity.
Qed.

Lemma check_passes_devices (A : uuid) (cmd : command) cols :
  cmd = INSERT ∨ cmd = UPDATE →
  check_passes (Authenticated A) public_devices cmd cols
  = match cols col_user_id with Some b => N.eqb A b | None => false end.
Proof.
  intros [-> | ->]; unfold check_passes, combine; simpl;
    destruct (cols col_user_id); simpl;
    rewrite ?orb_false_r, ?andb_true_r; reflexivity.
Qed.

(** No policy is granted to [anon]. *)
Lemma no_policy_for_anon rel cmd :
  List.filter (applies Anon rel cmd) policies = [].
Proof. destruct rel, cmd; reflexivity. Qed.

(** No policy lets a caller insert into [public.users]. *)
Lemma no_insert_policy_on_users who :
  who ≠ Definer →
  List.filter (applies who public_users INSERT) policies = [].
Proof. destruct who; [reflexivity | reflexivity | congruence]. Qed.

(** Default deny: where no policy applies, nothing passes. *)
Lemma default_deny who rel cmd cols :
  who ≠ Definer →
  List.filter (applies who rel cmd) policies = [] →
  using_passes who rel cmd cols = false
  ∧ check_passes who rel cmd cols = false.
Proof.
  intros Hwho Hnone. unfold using_passes, check_passes.
  rewrite Hnone. destruct who, rel; try congruence; split; reflexivity.
Qed.

Lemma targets_users (A : uuid) cmd w (u : users.row) :
  cmd ≠ INSERT →
  targets (Authenticated A) cmd w u = N.eqb A (users.id u) && w u.
Proof.
  intros Hcmd. unfold targets, row_cols. simpl relid.
  rewrite !using_passes_users by congruence. simpl.
  destruct (N.eqb A (users.id u)); reflexivity.
Qed.

Lemma targets_devices (A : uuid) cmd w (d : devices.row) :
  cmd ≠ INSERT →
  targets (Authenticated A) cmd w d = N.eqb A (devices.user_id d) && w d.
Proof.
  intros Hcmd. unfold targets, row_cols. simpl relid.
  rewrite !using_passes_devices by congruence. simpl.
  destruct (N.eqb A (devices.user_id d)); reflexivity.
Qed.

Lemma targets_anon `{T : Table row tuple} cmd w (r : row) :
  targets Anon cmd w r = false.
Proof.
  unfold targets.
  destruct (default_deny Anon relid SELECT (row_cols r)) as [-> _];
    [congruence | apply no_policy_for_anon | reflexivity].
Qed.

(** ** The row-by-row update *)

Section HeapFacts.
Context `{T : Table row tuple}.

(** An UPDATE that targets no row changes nothing and raises nothing. *)
Lemma update_rows_untargeted who e w assign (done todo : list row) :
  Forall (fun r => targets who UPDATE w r = false) todo →
  update_rows who e w assign done todo = Ok (todo, []).
Proof.
  intros Hall. revert done.
  induction Hall as [| r rest Hr _ IH]; intros done; simpl.
  - reflexivity.
  - rewrite Hr, IH. reflexivity.
Qed.

Lemma update_rows_inv who e w assign (done todo out : list row) changed :
  update_rows who e w assign done todo = Ok (out, changed) →
  Forall2 (row_updated who e w assign) todo out
  ∧ Forall (fun c => targets who UPDATE w (fst c) = true
                     ∧ ∃ others, update_row who e assign (fst c) others = Ok (snd c))
           changed.
Proof.
  revert done out changed.
  induction todo as [| r rest IH]; intros done out changed; simpl.
  - intros [= <- <-]. split; constructor.
  - destruct (targets who UPDATE w r) eqn:Ht.
    + destruct (update_row who e assign r (done ++ rest)) as [new |] eqn:Hu;
        simpl; [| discriminate].
      destruct (update_rows who e w assign (done ++ [new]) rest)
        as [[out' ch'] |] eqn:Hrec; simpl; [| discriminate].
      intros [= <- <-]. destruct (IH _ _ _ Hrec) as [IH1 IH2].
      split; constructor; try assumption.
      * unfold row_updated. rewrite Ht. eauto.
      * simpl. eauto.
    + destruct (update_rows who e w assign (done ++ [r]) rest)
        as [[out' ch'] |] eqn:Hrec; simpl; [| discriminate].
      intros [= <- <-]. destruct (IH _ _ _ Hrec) as [IH1 IH2].
      split; [constructor |]; try assumption.
      unfold row_updated. rewrite Ht. reflexivity.
Qed.

(** A row the UPDATE does not target is still there afterwards. *)
Lemma update_rows_keeps who e w assign (done todo out : list row) changed r :
  update_rows who e w assign done todo = Ok (out, changed) →
  targets who UPDATE w r = false →
  r ∈ todo → r ∈ out.
Proof.
  intros Hup Ht Hin. apply update_rows_inv in Hup as [Hall _].
  apply list_elem_of_lookup in Hin as [i Hi].
  destruct (Forall2_lookup_l _ _ _ _ _ Hall Hi) as (new & Hnew & Hrel).
  unfold row_updated in Hrel. rewrite Ht in Hrel. subst new.
  apply list_elem_of_lookup. eauto.
Qed.

Lemma select_rows_untargeted who w (t : list row) :
  Forall (fun r => targets who SELECT w r = false) t →
  select_rows who w t = [].
Proof.
  intros Hall. unfold select_rows.
  induction Hall as [| r rest Hr _ IH]; simpl; [reflexivity |].
  rewrite Hr. exact IH.
Qed.

Lemma delete_rows_untargeted who w (t : list row) :
  Forall (fun r => targets who DELETE w r = false) t →
  delete_rows who w t = (t, []).
Proof.
  intros Hall. unfold delete_rows.
  induction Hall as [| r rest Hr _ IH]; simpl; [reflexivity |].
  rewrite Hr. simpl. injection IH as -> ->. reflexivity.
Qed.

End HeapFacts.

(** ** What a caller's statement can and cannot reach *)

Lemma elem_of_List_filter {A} (f : A -> bool) (l : list A) (x : A) :
  x ∈ List.filter f l ↔ x ∈ l ∧ f x = true.
Proof. rewrite !list_elem_of_In. apply filter_In. Qed.

Lemma db_eta (s : db) :
  {| tbl_users := tbl_users s; tbl_devices := tbl_devices s |} = s.
Proof. destruct s; reflexivity. Qed.

Lemma insert_users_denied who e v s :
  who ≠ Definer →
  insert_users who e v s = Err (insufficient_privilege "users").
Proof.
  intros Hwho. unfold insert_users, insert_row. simpl relid.
  destruct (default_deny who public_users INSERT
              (uuid_cols (users.defaults e v)) Hwho
              (no_insert_policy_on_users who Hwho)) as [_ ->].
  reflexivity.
Qed.

(** Every [users] row that A's DELETE removes is A's own. *)
Lemma deleted_users_own (A : uuid) w (t : list users.row) u :
  u ∈ snd (delete_rows (Authenticated A) w t) → users.id u = A.
Proof.
  unfold delete_rows. simpl. rewrite elem_of_List_filter.
  rewrite targets_users by congruence.
  intros [_ [Heq _]%andb_prop]. apply N.eqb_eq in Heq. congruence.
Qed.

Lemma references_user_false (us : list users.row) (d : devices.row) :
  Forall (fun u => users.id u ≠ devices.user_id d) us →
  references_user us d = false.
Proof.
  intros Hall. unfold references_user.
  induction Hall as [| u us Hu _ IH]; simpl; [reflexivity |].
  rewrite IH. apply N.eqb_neq in Hu. rewrite Hu. reflexivity.
Qed.

Lemma execute_keeps_users (A B : uuid) e stmt s (u : users.row) :
  A ≠ B → users.id u = B → u ∈ tbl_users s →
  u ∈ tbl_users (snd (execute (Authenticated A) e stmt s))
  ∧ u ∉ returned_users (fst (execute (Authenticated A) e stmt s)).
Proof.
  intros HAB Hu Hin.
  assert (Hnot : ∀ cmd w, cmd ≠ INSERT → targets (Authenticated A) cmd w u = false).
  { intros cmd w Hcmd. rewrite targets_users by assumption.
    replace (N.eqb A (users.id u)) with false; [reflexivity |].
    symmetry. apply N.eqb_neq. congruence. }
  destruct stmt as [w | v | w assign | w | w | v | w assign | w];
    cbn [execute fst snd returned_users returned_devices].
  - split; [assumption |]. unfold select_users, select_rows.
    rewrite elem_of_List_filter, Hnot by congruence. intros [_ ?]; discriminate.
  - rewrite insert_users_denied by congruence.
    split; [assumption | apply not_elem_of_nil].
  - unfold update_users.
    destruct (update_rows _ e w assign [] (tbl_users s)) as [[us' ch] |] eqn:Hup;
      simpl; [| split; [assumption | apply not_elem_of_nil]].
    destruct (forallb _ ch); simpl; (split; [| apply not_elem_of_nil]);
      [| assumption].
    eapply update_rows_keeps; [exact Hup | apply Hnot; congruence | exact Hin].
  - split; [| apply not_elem_of_nil]. unfold delete_users, delete_rows. simpl.
    rewrite elem_of_List_filter, Hnot by congruence. auto.
  - split; [assumption | apply not_elem_of_nil].
  - unfold insert_devices.
    destruct (insert_row _ _ _) as [r |]; simpl;
      [destruct (references_user _ r); simpl |];
      (split; [assumption | apply not_elem_of_nil]).
  - unfold update_devices.
    destruct (update_rows _ e w assign [] (tbl_devices s)) as [[ds' ch] |];
      simpl; [destruct (forallb _ ch); simpl |];
      (split; [assumption | apply not_elem_of_nil]).
  - split; [assumption | apply not_elem_of_nil].
Qed.

Lemma execute_keeps_devices (A B : uuid) e stmt s (d : devices.row) :
  A ≠ B → devices.user_id d = B → d ∈ tbl_devices s →
  d ∈ tbl_devices (snd (execute (Authenticated A) e stmt s))
  ∧ d ∉ returned_devices (fst (execute (Authenticated A) e stmt s)).
Proof.
  intros HAB Hd Hin.
  assert (Hnot : ∀ cmd w, cmd ≠ INSERT → targets (Authenticated A) cmd w d = false).
  { intros cmd w Hcmd. rewrite targets_devices by assumption.
    replace (N.eqb A (devices.user_id d)) with false; [reflexivity |].
    symmetry. apply N.eqb_neq. congruence. }
  destruct stmt as [w | v | w assign | w | w | v | w assign | w];
    cbn [execute fst snd returned_users returned_devices].
  - split; [assumption | apply not_elem_of_nil].
  - rewrite insert_users_denied by congruence.
    split; [assumption | apply not_elem_of_nil].
  - unfold update_users.
    destruct (update_rows _ e w assign [] (tbl_users s)) as [[us' ch] |];
      simpl; [destruct (forallb _ ch); simpl |];
      (split; [assumption | apply not_elem_of_nil]).
  - split; [| apply not_elem_of_nil]. unfold delete_users.
    destruct (delete_rows (Authenticated A) w (tbl_users s)) as [kept gone] eqn:Hdel.
    simpl. rewrite elem_of_List_filter. split; [assumption |].
    rewrite references_user_false; [reflexivity |].
    apply Forall_forall. intros u Hgone.
    assert (users.id u = A) as ->; [| congruence].
    apply (deleted_users_own A w (tbl_users s)). rewrite Hdel. exact Hgone.
  - split; [assumption |]. unfold select_devices, select_rows.
    rewrite elem_of_List_filter, Hnot by congruence. intros [_ ?]; discriminate.
  - unfold insert_devices.
    destruct (insert_row _ _ _) as [r |]; simpl;
      [destruct (references_user _ r); simpl |];
      (split; [| apply not_elem_of_nil]); try assumption.
    apply elem_of_app. auto.
  - unfold update_devices.
    destruct (update_rows _ e w assign [] (tbl_devices s)) as [[ds' ch] |] eqn:Hup;
      simpl; [| split; [assumption | apply not_elem_of_nil]].
    destruct (forallb _ ch); simpl; (split; [| apply not_elem_of_nil]);
      [| assumption].
    eapply update_rows_keeps; [exact Hup | apply Hnot; congruence | exact Hin].
  - split; [| apply not_elem_of_nil]. unfold delete_devices, delete_rows. simpl.
    rewrite elem_of_List_filter, Hnot by congruence. auto.
Qed.

Lemma List_filter_all {A} (f : A -> bool) (l : list A) :
  Forall (fun x => f x = true) l → List.filter f l = l.
Proof.
  induction 1 as [| x l Hx _ IH]; simpl; [reflexivity |].
  rewrite Hx, IH. reflexivity.
Qed.

Lemma cascade_of_nothing (ds : list devices.row) :
  List.filter (fun d => negb (references_user [] d)) ds = ds.
Proof. apply List_filter_all, Forall_forall. reflexivity. Qed.

Lemma hidden_untargeted `{T : Table row tuple} who cmd w (l : list row) :
  cmd ≠ INSERT →
  Forall (hidden_from who) (List.filter w l) →
  Forall (fun r => targets who cmd w r = false) l.
Proof.
  intros Hcmd Hall. apply Forall_forall. intros r Hin.
  unfold targets. destruct (w r) eqn:Hw; [| apply andb_false_r].
  rewrite Forall_forall in Hall.
  assert (Hh : hidden_from who r) by (apply Hall, elem_of_List_filter; auto).
  rewrite (Hh SELECT) by congruence. reflexivity.
Qed.

(** A statement whose WHERE clause names only rows hidden from its issuer
    comes back empty-handed and leaves the database as it was. *)
Lemma execute_untargeted who e stmt s :
  on_stored_rows stmt = true →
  Forall (hidden_from who) (named_users stmt s) →
  Forall (hidden_from who) (named_devices stmt s) →
  execute who e stmt s
  = (match stmt with
     | SelectUsers _ => users_rows []
     | SelectDevices _ => devices_rows []
     | _ => affected 0
     end, s).
Proof.
  intros Hst Hu Hd.
  destruct stmt as [w | v | w assign | w | w | v | w assign | w];
    try discriminate; cbn [execute]; simpl in Hu, Hd.
  - unfold select_users.
    rewrite select_rows_untargeted by (apply hidden_untargeted; [congruence | exact Hu]).
    reflexivity.
  - unfold update_users.
    rewrite update_rows_untargeted by (apply hidden_untargeted; [congruence | exact Hu]).
    simpl. rewrite db_eta. reflexivity.
  - unfold delete_users.
    rewrite delete_rows_untargeted by (apply hidden_untargeted; [congruence | exact Hu]).
    simpl. rewrite cascade_of_nothing, db_eta. reflexivity.
  - unfold select_devices.
    rewrite select_rows_untargeted by (apply hidden_untargeted; [congruence | exact Hd]).
    reflexivity.
  - unfold update_devices.
    rewrite update_rows_untargeted by (apply hidden_untargeted; [congruence | exact Hd]).
    simpl. rewrite db_eta. reflexivity.
  - unfold delete_devices.
    rewrite delete_rows_untargeted by (apply hidden_untargeted; [congruence | exact Hd]).
    simpl. rewrite db_eta. reflexivity.
Qed.

Lemma hidden_from_anon `{T : Table row tuple} (r : row) : hidden_from Anon r.
Proof.
  intros cmd _.
  destruct (default_deny Anon relid cmd (row_cols r)) as [-> _];
    [congruence | apply no_policy_for_anon | reflexivity].
Qed.

Lemma hidden_users (who : principal) (u : users.row) :
  bypasses_rls who = false →
  auth_uid who ≠ Some (users.id u) →
  hidden_from who u.
Proof.
  intros Hrls Hne. destruct who as [| A |]; [apply hidden_from_anon | | discriminate].
  intros cmd Hcmd. simpl relid. rewrite using_passes_users by assumption.
  unfold row_cols. simpl. apply N.eqb_neq. simpl in Hne. congruence.
Qed.

Lemma hidden_devices (who : principal) (d : devices.row) :
  bypasses_rls who = false →
  auth_uid who ≠ Some (devices.user_id d) →
  hidden_from who d.
Proof.
  intros Hrls Hne. destruct who as [| A |]; [apply hidden_from_anon | | discriminate].
  intros cmd Hcmd. simpl relid. rewrite using_passes_devices by assumption.
  unfold row_cols. simpl. apply N.eqb_neq. simpl in Hne. congruence.
Qed.

Lemma insert_devices_anon e v s :
  insert_devices Anon e v s = Err (insufficient_privilege "devices").
Proof.
  unfold insert_devices, insert_row. simpl relid.
  destruct (default_deny Anon public_devices INSERT
              (uuid_cols (devices.defaults e v))) as [_ ->];
    [congruence | apply no_policy_for_anon | reflexivity].
Qed.

Lemma execute_anon e stmt s :
  denied (fst (execute Anon e stmt s)) = true
  ∧ snd (execute Anon e stmt s) = s.
Proof.
  destruct (on_stored_rows stmt) eqn:Hst.
  - rewrite execute_untargeted; try assumption.
    + destruct stmt; try discriminate; split; reflexivity.
    + apply Forall_forall. intros u _. apply hidden_from_anon.
    + apply Forall_forall. intros d _. apply hidden_from_anon.
  - destruct stmt; try discriminate; cbn [execute].
    + rewrite insert_users_denied by congruence. split; reflexivity.
    + rewrite insert_devices_anon. split; reflexivity.
Qed.

(** C1. Row security denies a caller every read, update and delete of a
    row that belongs to another identity: whatever statement A issues, a
    [users] or [devices] row owned by B (A ≠ B) is not targeted, is not
    returned, and is still stored unchanged afterwards.  An unauthenticated
    caller gets nothing from any statement on either table and changes
    nothing.  Where no policy is listed for a caller's role, relation and
    command, neither USING nor WITH CHECK passes (default deny); in
    particular every caller's INSERT into [users] is refused. *)
Theorem rls_denies_other_owners (A B : uuid) (HAB : A ≠ B) :
  (∀ cmd w (u : users.row), cmd ≠ INSERT → users.id u = B →
     targets (Authenticated A) cmd w u = false)
  ∧ (∀ cmd w (d : devices.row), cmd ≠ INSERT → devices.user_id d = B →
     targets (Authenticated A) cmd w d = false)
  ∧ (∀ e stmt s (u : users.row), users.id u = B → u ∈ tbl_users s →
     u ∈ tbl_users (snd (execute (Authenticated A) e stmt s))
     ∧ u ∉ returned_users (fst (execute (Authenticated A) e stmt s)))
  ∧ (∀ e stmt s (d : devices.row), devices.user_id d = B → d ∈ tbl_devices s →
     d ∈ tbl_devices (snd (execute (Authenticated A) e stmt s))
     ∧ d ∉ returned_devices (fst (execute (Authenticated A) e stmt s)))
  ∧ (∀ e stmt s,
     denied (fst (execute Anon e stmt s)) = true
     ∧ snd (execute Anon e stmt s) = s)
  ∧ (∀ who rel cmd cols, who ≠ Definer →
     List.filter (applies who rel cmd) policies = [] →
     using_passes who rel cmd cols = false
     ∧ check_passes who rel cmd cols = false)
  ∧ (∀ who e v s, who ≠ Definer →
     execute who e (InsertUsers v) s
     = (raised (insufficient_privilege "users"), s)).
Proof.
  split; [| split; [| split; [| split; [| split; [| split]]]]].
  - intros cmd w u Hcmd Hu. rewrite targets_users by assumption.
    replace (N.eqb A (users.id u)) with false; [reflexivity |].
    symmetry. apply N.eqb_neq. congruence.
  - intros cmd w d Hcmd Hd. rewrite targets_devices by assumption.
    replace (N.eqb A (devices.user_id d)) with false; [reflexivity |].
    symmetry. apply N.eqb_neq. congruence.
  - intros e stmt s u Hu Hin. exact (execute_keeps_users A B e stmt s u HAB Hu Hin).
  - intros e stmt s d Hd Hin. exact (execute_keeps_devices A B e stmt s d HAB Hd Hin).
  - exact execute_anon.
  - intros who rel cmd cols Hwho Hnone. exact (default_deny who rel cmd cols Hwho Hnone).
  - intros who e v s Hwho. cbn [execute].
    rewrite insert_users_denied by assumption. reflexivity.
Qed.

Example scenario_signed_up :
  db_signed_up = {| tbl_users := [u1_row]; tbl_devices := [] |}.
Proof. reflexivity. Qed.

Example scenario_registered :
  db_registered = {| tbl_users := [u1_row]; tbl_devices := [u1_device] |}.
Proof. reflexivity. Qed.

Lemma rls_denies_other_owners_witness :
  u2 ≠ u1
  ∧ targets (Authenticated u2) UPDATE (fun _ => true) u1_row = false
  ∧ u1_device ∈ tbl_devices
      (snd (execute (Authenticated u2) t1 (DeleteDevices (fun _ => true)) db_registered))
  ∧ u1_device ∉ returned_devices
      (fst (execute (Authenticated u2) t1 (SelectDevices (fun _ => true)) db_registered)).
Proof.
  assert (Hne : u2 ≠ u1) by discriminate.
  destruct (rls_denies_other_owners u2 u1 Hne) as (Hu & _ & _ & Hd & _).
  split; [exact Hne |]. split; [| split].
  - apply Hu; [discriminate | reflexivity].
  - apply Hd; [reflexivity | apply list_elem_of_here].
  - apply Hd; [reflexivity | apply list_elem_of_here].
Defined.

(** C7. A refused read, update or delete looks the same to its issuer
    whether the rows it names do not exist or exist and belong to someone
    else: run on a database where the WHERE clause matches nothing and on
    one where it matches only rows of other identities, the statement
    yields the same outcome (no row returned, no row affected) and the
    second database is left as it was. *)
Theorem denial_hides_existence (who : principal) (e : env) (stmt : statement)
    (s_absent s_foreign : db)
    (Hcaller : bypasses_rls who = false)
    (Hstmt : on_stored_rows stmt = true)
    (Habsent : named_users stmt s_absent = [] ∧ named_devices stmt s_absent = [])
    (Hforeign_users :
       Forall (fun u => auth_uid who ≠ Some (users.id u)) (named_users stmt s_foreign))
    (Hforeign_devices :
       Forall (fun d => auth_uid who ≠ Some (devices.user_id d))
              (named_devices stmt s_foreign)) :
  fst (execute who e stmt s_absent) = fst (execute who e stmt s_foreign)
  ∧ denied (fst (execute who e stmt s_foreign)) = true
  ∧ snd (execute who e stmt s_foreign) = s_foreign.
Proof.
  destruct Habsent as [Hnu Hnd].
  rewrite (execute_untargeted who e stmt s_absent Hstmt)
    by (rewrite ?Hnu, ?Hnd; constructor).
  rewrite (execute_untargeted who e stmt s_foreign Hstmt).
  - destruct stmt; try discriminate; repeat split; reflexivity.
  - eapply Forall_impl; [exact Hforeign_users |].
    intros u Hu. apply hidden_users; assumption.
  - eapply Forall_impl; [exact Hforeign_devices |].
    intros d Hd. apply hidden_devices; assumption.
Qed.

Lemma denial_hides_existence_witness :
  fst (execute (Authenticated u2) t1
         (DeleteDevices (fun d => N.eqb (devices.id d) 501)) db_signed_up)
  = fst (execute (Authenticated u2) t1
           (DeleteDevices (fun d => N.eqb (devices.id d) 501)) db_registered)
  ∧ u1_device ∈ tbl_devices db_registered.
Proof.
  split; [| apply list_elem_of_here].
  apply (denial_hides_existence (Authenticated u2) t1
           (DeleteDevices (fun d => N.eqb (devices.id d) 501))
           db_signed_up db_registered).
  - reflexivity.
  - reflexivity.
  - split; reflexivity.
  - constructor.
  - constructor; [discriminate | constructor].
Defined.

(** ** Statements run by the owner of the tables *)

Lemma targets_definer `{T : Table row tuple} cmd w (r : row) :
  targets Definer cmd w r = w r.
Proof. reflexivity. Qed.

Lemma delete_rows_definer `{T : Table row tuple} w (t : list row) :
  delete_rows Definer w t
  = (List.filter (fun r => negb (w r)) t, List.filter w t).
Proof. reflexivity. Qed.

Lemma references_user_spec (us : list users.row) (d : devices.row) :
  references_user us d = true
  ↔ ∃ u, u ∈ us ∧ users.id u = devices.user_id d.
Proof.
  unfold references_user. rewrite existsb_exists. split.
  - intros (u & Hin & Heq). exists u. rewrite list_elem_of_In.
    apply N.eqb_eq in Heq. auto.
  - intros (u & Hin & Heq). exists u. rewrite <- list_elem_of_In.
    split; [assumption | apply N.eqb_eq; assumption].
Qed.

Lemma List_filter_none {A} (f : A -> bool) (l : list A) :
  List.filter f l = [] → List.filter (fun x => negb (f x)) l = l.
Proof.
  induction l as [| x l IH]; simpl; [reflexivity |].
  destruct (f x); simpl; [discriminate |].
  intros H. rewrite IH by assumption. reflexivity.
Qed.

Lemma handle_deleted_user_eq (OLD : auth.users) (s : db) :
  handle_deleted_user OLD s
  = Ok ({| tbl_users :=
             List.filter (fun u => negb (N.eqb (users.id u) (auth.id OLD)))
                         (tbl_users s);
           tbl_devices :=
             List.filter
               (fun d => negb (references_user
                                 (List.filter (fun u => N.eqb (users.id u) (auth.id OLD))
                                              (tbl_users s)) d))
               (tbl_devices s) |}, OLD).
Proof. reflexivity. Qed.

(** C2. After an account-deletion event for identity key [k], handled on
    a database that satisfies the declared foreign key, no [users] row
    with [id = k] and no [devices] row with [user_id = k] is left, so no
    orphan refers to [k]; the owner and its dependents go in the one
    DELETE statement (the cascade), every other row stays, and the
    foreign key still holds. *)
Theorem account_deletion_cascades (OLD : auth.users) (s : db)
    (Hfk : fk_valid s) :
  ∃ s', handle_deleted_user OLD s = Ok (s', OLD)
    ∧ on_auth_user_deleted OLD s = s'
    ∧ (∀ u, u ∈ tbl_users s' → users.id u ≠ auth.id OLD)
    ∧ (∀ d, d ∈ tbl_devices s' → devices.user_id d ≠ auth.id OLD)
    ∧ (∀ u, u ∈ tbl_users s → users.id u ≠ auth.id OLD → u ∈ tbl_users s')
    ∧ (∀ d, d ∈ tbl_devices s → devices.user_id d ≠ auth.id OLD → d ∈ tbl_devices s')
    ∧ fk_valid s'.
Proof.
  eexists. split; [apply handle_deleted_user_eq |].
  split; [unfold on_auth_user_deleted; rewrite handle_deleted_user_eq; reflexivity |].
  set (k := auth.id OLD). simpl.
  set (gone := List.filter (fun u => N.eqb (users.id u) k) (tbl_users s)).
  assert (Hgone : ∀ u, u ∈ gone ↔ u ∈ tbl_users s ∧ users.id u = k).
  { intros u. unfold gone. rewrite elem_of_List_filter, N.eqb_eq. reflexivity. }
  unfold fk_valid in Hfk. rewrite Forall_forall in Hfk.
  repeat split.
  - intros u [_ Hu]%elem_of_List_filter.
    apply negb_true_iff, N.eqb_neq in Hu. exact Hu.
  - intros d [Hin Hd]%elem_of_List_filter Hk.
    apply negb_true_iff in Hd.
    apply Hfk, references_user_spec in Hin as (u & Hu & Hid).
    assert (references_user gone d = true); [| congruence].
    apply references_user_spec. exists u. split; [| assumption].
    apply Hgone. split; congruence.
  - intros u Hin Hne. apply elem_of_List_filter. split; [assumption |].
    apply negb_true_iff, N.eqb_neq. exact Hne.
  - intros d Hin Hne. apply elem_of_List_filter. split; [assumption |].
    apply negb_true_iff. apply references_user_false, Forall_forall.
    intros u [_ Hu]%Hgone. congruence.
  - unfold fk_valid. simpl. apply Forall_forall.
    intros d [Hin Hd]%elem_of_List_filter.
    apply negb_true_iff in Hd.
    apply Hfk, references_user_spec in Hin as (u & Hu & Hid).
    apply references_user_spec. exists u. split; [| assumption].
    apply elem_of_List_filter. split; [assumption |].
    apply negb_true_iff, N.eqb_neq. intros Hk.
    assert (references_user gone d = true); [| congruence].
    apply references_user_spec. exists u. split; [| assumption].
    apply Hgone. auto.
Qed.

Lemma account_deletion_cascades_witness :
  fk_valid db_registered
  ∧ on_auth_user_deleted u1_account db_registered = empty_db.
Proof.
  assert (Hfk : fk_valid db_registered).
  { constructor; [reflexivity | constructor]. }
  split; [exact Hfk |].
  destruct (account_deletion_cascades u1_account db_registered Hfk)
    as (s' & _ & <- & _).
  reflexivity.
Defined.

(** C9. An account-deletion event for an identity key that has no
    [users] row completes without error and leaves both tables exactly as
    they were: deleting zero rows is not a failure, and nothing cascades. *)
Theorem account_deletion_idempotent (OLD : auth.users) (s : db)
    (Habsent : count_users (auth.id OLD) s = 0%nat) :
  handle_deleted_user OLD s = Ok (s, OLD)
  ∧ on_auth_user_deleted OLD s = s.
Proof.
  assert (Hnone : List.filter (fun u => N.eqb (users.id u) (auth.id OLD))
                              (tbl_users s) = []).
  { unfold count_users in Habsent. apply length_zero_iff_nil. exact Habsent. }
  assert (Heq : handle_deleted_user OLD s = Ok (s, OLD)).
  { rewrite handle_deleted_user_eq, Hnone.
    rewrite (List_filter_none _ _ Hnone), cascade_of_nothing, db_eta.
    reflexivity. }
  split; [exact Heq |].
  unfold on_auth_user_deleted. rewrite Heq. reflexivity.
Qed.

Lemma account_deletion_idempotent_witness :
  count_users u2 db_registered = 0%nat
  ∧ handle_deleted_user u2_account db_registered = Ok (db_registered, u2_account).
Proof.
  split; [reflexivity |].
  apply (account_deletion_idempotent u2_account db_registered). reflexivity.
Defined.

(** ** Account creation *)

Lemma handle_new_user_eq (e : env) (NEW : auth.users) (s : db) :
  handle_new_user e NEW s
  = if existsb (fun u => N.eqb (auth.id NEW) (users.id u)) (tbl_users s)
    then Err (unique_violation "users_pkey")
    else Ok ({| tbl_users :=
                  tbl_users s ++
                  [{| users.id := auth.id NEW;
                      users.email := auth.email NEW;
                      users.display_name :=
                        jsonb_field_text (auth.raw_user_meta_data NEW) "full_name";
                      users.created_at := Some (NOW e);
                      users.updated_at := Some (NOW e);
                      users.photo_url :=
                        jsonb_field_text (auth.raw_user_meta_data NEW) "avatar_url" |}];
                tbl_devices := tbl_devices s |}, NEW).
Proof.
  unfold handle_new_user, insert_users, insert_row, check_unique, violated_index.
  simpl. unfold users.users_pkey. simpl.
  destruct (existsb _ (tbl_users s)); reflexivity.
Qed.

Lemma count_users_zero (k : uuid) (s : db) :
  count_users k s = 0%nat
  ↔ existsb (fun u => N.eqb k (users.id u)) (tbl_users s) = false.
Proof.
  unfold count_users. induction (tbl_users s) as [| u us IH]; simpl.
  - tauto.
  - rewrite (N.eqb_sym k). destruct (N.eqb (users.id u) k); simpl.
    + split; discriminate.
    + exact IH.
Qed.

(** C3. An account-creation event for an identity key that has no
    [users] row yet always succeeds, whatever metadata it carries, and
    appends one row: [id] is the event's key, [email] the event's e-mail,
    [display_name] and [photo_url] the texts under "full_name" and
    "avatar_url" of the metadata, NULL where the metadata or the key is
    missing; afterwards exactly one [users] row has that key. *)
Theorem account_creation_provisions (e : env) (NEW : auth.users) (s : db)
    (Hvalid : count_users (auth.id NEW) s = 0%nat) :
  let meta := auth.raw_user_meta_data NEW in
  let r := {| users.id := auth.id NEW;
              users.email := auth.email NEW;
              users.display_name := jsonb_field_text meta "full_name";
              users.created_at := Some (NOW e);
              users.updated_at := Some (NOW e);
              users.photo_url := jsonb_field_text meta "avatar_url" |} in
  handle_new_user e NEW s
    = Ok ({| tbl_users := tbl_users s ++ [r]; tbl_devices := tbl_devices s |}, NEW)
  ∧ count_users (auth.id NEW) (on_auth_user_created e NEW s) = 1%nat
  ∧ (meta = None → users.display_name r = None ∧ users.photo_url r = None)
  ∧ (∀ members, meta = Some (jsonb_object members) →
       users.display_name r
         = match members !! "full_name" with
           | Some (json_text txt) => Some txt
           | _ => None
           end
       ∧ users.photo_url r
         = match members !! "avatar_url" with
           | Some (json_text txt) => Some txt
           | _ => None
           end).
Proof.
  intros meta r.
  assert (Heq : handle_new_user e NEW s
                = Ok ({| tbl_users := tbl_users s ++ [r];
                         tbl_devices := tbl_devices s |}, NEW)).
  { rewrite handle_new_user_eq.
    apply count_users_zero in Hvalid. rewrite Hvalid. reflexivity. }
  split; [exact Heq |]. split; [| split].
  - unfold on_auth_user_created. rewrite Heq. unfold count_users in *. simpl.
    rewrite List.filter_app, length_app, Hvalid. simpl.
    rewrite N.eqb_refl. reflexivity.
  - intros Hmeta. simpl. rewrite Hmeta. split; reflexivity.
  - intros members Hmeta. simpl. rewrite Hmeta. split; reflexivity.
Qed.

Lemma account_creation_provisions_witness :
  count_users u1 empty_db = 0%nat
  ∧ handle_new_user t0 u1_account empty_db
    = Ok ({| tbl_users := [u1_row]; tbl_devices := [] |}, u1_account)
  ∧ count_users u2 (on_auth_user_created t1 u2_account db_registered) = 1%nat.
Proof.
  split; [reflexivity |]. split.
  - apply (account_creation_provisions t0 u1_account empty_db). reflexivity.
  - apply (account_creation_provisions t1 u2_account db_registered). reflexivity.
Defined.

(** C8, as the specification states it, fails: the second delivery of an
    account-created event for a key whose [users] row exists does not
    complete; the INSERT raises a unique violation on [users_pkey]. *)
Lemma duplicate_account_created_raises :
  count_users (auth.id u1_account) db_signed_up = 1%nat
  ∧ handle_new_user t1 u1_account db_signed_up = Err (unique_violation "users_pkey")
  ∧ ¬ (∃ done, handle_new_user t1 u1_account db_signed_up = Ok done).
Proof.
  split; [reflexivity |]. split; [reflexivity |].
  intros [done Hdone]. vm_compute in Hdone. discriminate.
Qed.

(** C8, amended. The second delivery of an account-created event for a
    key whose [users] row exists is rejected with a unique violation on
    [users_pkey], whatever the event carries; the error rolls the
    transaction back, so the database is unchanged. *)
Theorem account_creation_redelivery_rejected (e : env) (NEW : auth.users)
    (s : db) (Hexists : count_users (auth.id NEW) s ≠ 0%nat) :
  handle_new_user e NEW s = Err (unique_violation "users_pkey")
  ∧ on_auth_user_created e NEW s = s.
Proof.
  assert (Heq : handle_new_user e NEW s = Err (unique_violation "users_pkey")).
  { rewrite handle_new_user_eq.
    destruct (existsb _ (tbl_users s)) eqn:Hex; [reflexivity |].
    apply count_users_zero in Hex. contradiction. }
  split; [exact Heq |].
  unfold on_auth_user_created. rewrite Heq. reflexivity.
Qed.

Lemma account_creation_redelivery_rejected_witness :
  count_users (auth.id u1_account) db_registered ≠ 0%nat
  ∧ on_auth_user_created t1 u1_account db_registered = db_registered.
Proof.
  assert (Hne : count_users (auth.id u1_account) db_registered ≠ 0%nat)
    by discriminate.
  split; [exact Hne |].
  apply (account_creation_redelivery_rejected t1 u1_account db_registered Hne).
Defined.

(** ** Inserting rows *)

Lemma check_unique_Ok `{T : Table row tuple} (r r' : row) (t : list row) :
  check_unique r t = Ok r' → r' = r ∧ violated_index r t = None.
Proof.
  unfold check_unique. destruct (violated_index r t); [discriminate |].
  intros [= <-]. auto.
Qed.

Lemma devices_violated_index (r : devices.row) (t : list devices.row) :
  violated_index r t
  = if existsb (devices.devices_pkey r) t then Some "devices_pkey"
    else if existsb (devices.devices_user_id_fcm_token_key r) t
         then Some "devices_user_id_fcm_token_key"
         else None.
Proof.
  unfold violated_index. simpl.
  destruct (existsb (devices.devices_pkey r) t); [reflexivity |].
  destruct (existsb (devices.devices_user_id_fcm_token_key r) t); reflexivity.
Qed.

Lemma devices_not_null_Ok (t : devices.tuple) (r : devices.row) :
  devices.check_not_null t = Ok r →
  devices.t_id t = Some (devices.id r)
  ∧ devices.t_user_id t = Some (devices.user_id r)
  ∧ devices.t_fcm_token t = Some (devices.fcm_token r)
  ∧ devices.created_at r = devices.t_created_at t
  ∧ devices.updated_at r = devices.t_updated_at t.
Proof.
  unfold devices.check_not_null.
  destruct (devices.t_id t); [| discriminate].
  destruct (devices.t_user_id t); [| discriminate].
  destruct (devices.t_fcm_token t); [| discriminate].
  intros [= <-]. simpl. auto.
Qed.

Lemma users_not_null_Ok (t : users.tuple) (r : users.row) :
  users.check_not_null t = Ok r →
  users.t_id t = Some (users.id r)
  ∧ users.created_at r = users.t_created_at t
  ∧ users.updated_at r = users.t_updated_at t.
Proof.
  unfold users.check_not_null.
  destruct (users.t_id t); [| discriminate].
  intros [= <-]. simpl. auto.
Qed.

Lemma pair_collides (r : devices.row) (t : list devices.row) :
  existsb (devices.devices_user_id_fcm_token_key r) t = true
  ↔ ∃ d, d ∈ t ∧ devices.user_id d = devices.user_id r
         ∧ devices.fcm_token d = devices.fcm_token r.
Proof.
  rewrite existsb_exists. unfold devices.devices_user_id_fcm_token_key.
  split; intros (d & Hin & H); exists d.
  - apply andb_prop in H as [Hu Ht].
    apply N.eqb_eq in Hu. apply String.eqb_eq in Ht.
    rewrite list_elem_of_In. auto.
  - destruct H as [Hu Ht]. rewrite <- list_elem_of_In.
    split; [assumption |]. rewrite Hu, Ht, N.eqb_refl, String.eqb_refl.
    reflexivity.
Qed.

Lemma pkey_free (r : devices.row) (t : list devices.row) :
  (∀ d, d ∈ t → devices.id d ≠ devices.id r) →
  existsb (devices.devices_pkey r) t = false.
Proof.
  intros Hfree. apply not_true_is_false. rewrite existsb_exists.
  intros (d & Hin & Heq). apply N.eqb_eq in Heq.
  apply (Hfree d); [apply list_elem_of_In; assumption | congruence].
Qed.

Lemma check_passes_owner (who : principal) (cmd : command) (owner : uuid) cols :
  who = Definer ∨ who = Authenticated owner →
  cmd = INSERT ∨ cmd = UPDATE →
  cols col_user_id = Some owner →
  check_passes who public_devices cmd cols = true.
Proof.
  intros [-> | ->] Hcmd Hcols; [reflexivity |].
  rewrite check_passes_devices, Hcols by assumption. apply N.eqb_refl.
Qed.

Lemma insert_devices_eq (who : principal) (e : env) (v : devices.values) (s : db) :
  insert_devices who e v s
  = if check_passes who public_devices INSERT (devices.cols (devices.defaults e v))
    then match devices.check_not_null (devices.defaults e v) with
         | Err x => Err x
         | Ok r =>
             match violated_index r (tbl_devices s) with
             | Some conname => Err (unique_violation conname)
             | None =>
                 if references_user (tbl_users s) r
                 then Ok {| tbl_users := tbl_users s;
                            tbl_devices := tbl_devices s ++ [r] |}
                 else Err (foreign_key_violation "devices_user_id_fkey")
             end
         end
    else Err (insufficient_privilege "devices").
Proof.
  unfold insert_devices, insert_row, check_unique. simpl relid. simpl uuid_cols.
  simpl not_null. simpl relname.
  destruct (check_passes _ _ _ _); [| reflexivity].
  destruct (devices.check_not_null _) as [r |]; [| reflexivity].
  simpl. destruct (violated_index r (tbl_devices s)); reflexivity.
Qed.

Lemma insert_users_eq (who : principal) (e : env) (v : users.values) (s : db) :
  insert_users who e v s
  = if check_passes who public_users INSERT (users.cols (users.defaults e v))
    then match users.check_not_null (users.defaults e v) with
         | Err x => Err x
         | Ok r =>
             match violated_index r (tbl_users s) with
             | Some conname => Err (unique_violation conname)
             | None => Ok {| tbl_users := tbl_users s ++ [r];
                             tbl_devices := tbl_devices s |}
             end
         end
    else Err (insufficient_privilege "users").
Proof.
  unfold insert_users, insert_row, check_unique. simpl relid. simpl uuid_cols.
  simpl not_null. simpl relname.
  destruct (check_passes _ _ _ _); [| reflexivity].
  destruct (users.check_not_null _) as [r |]; [| reflexivity].
  simpl. destruct (violated_index r (tbl_users s)); reflexivity.
Qed.

Lemma execute_insert_devices_failed who e v s :
  is_ok (insert_devices who e v s) = false →
  snd (execute who e (InsertDevices v) s) = s.
Proof.
  cbn [execute]. destruct (insert_devices who e v s); [discriminate | reflexivity].
Qed.

(** C5. The pair (user_id, fcm_token) is unique in [devices].  An INSERT
    of a pair that some stored row already has is rejected and the
    database stays as it was; when the row is otherwise acceptable (the
    issuer is the owner, the [id] is free) the error is the unique
    violation on [devices_user_id_fcm_token_key].  An INSERT whose pair
    differs from every stored row in the user or in the token (so also one
    with another token for the same user, or the same token for another
    user) succeeds and appends the row, provided the owner exists. *)
Theorem device_token_unique_per_user (who : principal) (e : env)
    (v : devices.values) (s : db) (owner : uuid) (token : text)
    (Howner : devices.v_user_id v = VALUE (Some owner))
    (Htoken : devices.v_fcm_token v = VALUE (Some token)) :
  ((∃ d, d ∈ tbl_devices s ∧ devices.user_id d = owner
         ∧ devices.fcm_token d = token) →
   is_ok (insert_devices who e v s) = false
   ∧ snd (execute who e (InsertDevices v) s) = s)
  ∧ (∀ i,
       who = Definer ∨ who = Authenticated owner →
       or_default (devices.v_id v) (Some (gen_random_uuid e)) = Some i →
       (∀ d, d ∈ tbl_devices s → devices.id d ≠ i) →
       ((∃ d, d ∈ tbl_devices s ∧ devices.user_id d = owner
              ∧ devices.fcm_token d = token) →
        insert_devices who e v s
        = Err (unique_violation "devices_user_id_fcm_token_key"))
       ∧ ((∀ d, d ∈ tbl_devices s →
                devices.user_id d ≠ owner ∨ devices.fcm_token d ≠ token) →
          (∃ u, u ∈ tbl_users s ∧ users.id u = owner) →
          insert_devices who e v s
          = Ok {| tbl_users := tbl_users s;
                  tbl_devices :=
                    tbl_devices s ++
                    [{| devices.id := i;
                        devices.user_id := owner;
                        devices.fcm_token := token;
                        devices.created_at :=
                          or_default (devices.v_created_at v) (Some (NOW e));
                        devices.updated_at :=
                          or_default (devices.v_updated_at v) (Some (NOW e)) |}] |})).
Proof.
  split.
  - intros Hdup.
    assert (Hfail : is_ok (insert_devices who e v s) = false).
    { rewrite insert_devices_eq.
      destruct (check_passes _ _ _ _); [| reflexivity].
      destruct (devices.check_not_null _) as [r |] eqn:Hnn; [| reflexivity].
      apply devices_not_null_Ok in Hnn as (_ & Hu & Ht & _).
      simpl in Hu, Ht. rewrite Howner in Hu. rewrite Htoken in Ht.
      simpl in Hu, Ht. injection Hu as Hu. injection Ht as Ht.
      rewrite devices_violated_index.
      destruct (existsb (devices.devices_pkey r) _); [reflexivity |].
      replace (existsb (devices.devices_user_id_fcm_token_key r) (tbl_devices s))
        with true; [reflexivity |].
      symmetry. apply pair_collides.
      destruct Hdup as (d & Hin & Hdu & Hdt). exists d. repeat split; congruence. }
    split; [exact Hfail | apply execute_insert_devices_failed, Hfail].
  - intros i Hwho Hid Hfree.
    assert (Hcheck : check_passes who public_devices INSERT
                       (devices.cols (devices.defaults e v)) = true).
    { apply (check_passes_owner who INSERT owner); auto.
      simpl. rewrite Howner. reflexivity. }
    set (r := {| devices.id := i; devices.user_id := owner;
                 devices.fcm_token := token;
                 devices.created_at :=
                   or_default (devices.v_created_at v) (Some (NOW e));
                 devices.updated_at :=
                   or_default (devices.v_updated_at v) (Some (NOW e)) |}).
    assert (Hnn : devices.check_not_null (devices.defaults e v) = Ok r).
    { unfold devices.check_not_null. simpl.
      rewrite Hid, Howner, Htoken. reflexivity. }
    assert (Hpk : existsb (devices.devices_pkey r) (tbl_devices s) = false).
    { apply pkey_free. exact Hfree. }
    split.
    + intros Hdup. rewrite insert_devices_eq, Hcheck, Hnn, devices_violated_index, Hpk.
      replace (existsb (devices.devices_user_id_fcm_token_key r) (tbl_devices s))
        with true; [reflexivity |].
      symmetry. apply pair_collides. exact Hdup.
    + intros Hnew (u & Hu & Huid).
      rewrite insert_devices_eq, Hcheck, Hnn, devices_violated_index, Hpk.
      replace (existsb (devices.devices_user_id_fcm_token_key r) (tbl_devices s))
        with false.
      * replace (references_user (tbl_users s) r) with true; [reflexivity |].
        symmetry. apply references_user_spec. exists u. auto.
      * symmetry. apply not_true_is_false. rewrite pair_collides.
        intros (d & Hin & Hdu & Hdt). destruct (Hnew d Hin); auto.
Qed.

Lemma device_token_unique_per_user_witness :
  snd (execute (Authenticated u1) t1 (InsertDevices (register u1 "tok-1")) db_registered)
    = db_registered
  ∧ insert_devices (Authenticated u1) t1 (register u1 "tok-1") db_two_accounts
    = Err (unique_violation "devices_user_id_fcm_token_key")
  ∧ is_ok (insert_devices (Authenticated u1) t1 (register u1 "tok-2") db_two_accounts)
    = true
  ∧ is_ok (insert_devices (Authenticated u2) t2 (register u2 "tok-1") db_two_accounts)
    = true.
Proof.
  assert (Hfree : ∀ i, i ≠ 501%N →
            ∀ d, d ∈ tbl_devices db_two_accounts → devices.id d ≠ i).
  { intros i Hi d Hd. apply list_elem_of_singleton in Hd. subst d.
    simpl. congruence. }
  split; [| split; [| split]].
  - apply (device_token_unique_per_user (Authenticated u1) t1
             (register u1 "tok-1") db_registered u1 "tok-1" eq_refl eq_refl).
    exists u1_device. split; [apply list_elem_of_here | split; reflexivity].
  - apply (proj1 (proj2 (device_token_unique_per_user (Authenticated u1) t1
               (register u1 "tok-1") db_two_accounts u1 "tok-1" eq_refl eq_refl)
               502%N (or_intror eq_refl) eq_refl (Hfree 502%N ltac:(discriminate)))).
    exists u1_device. split; [apply list_elem_of_here | split; reflexivity].
  - rewrite (proj2 (proj2 (device_token_unique_per_user (Authenticated u1) t1
               (register u1 "tok-2") db_two_accounts u1 "tok-2" eq_refl eq_refl)
               502%N (or_intror eq_refl) eq_refl (Hfree 502%N ltac:(discriminate)))).
    + reflexivity.
    + intros d Hd. apply list_elem_of_singleton in Hd. subst d.
      right. discriminate.
    + exists u1_row. split; [apply list_elem_of_here | reflexivity].
  - rewrite (proj2 (proj2 (device_token_unique_per_user (Authenticated u2) t2
               (register u2 "tok-1") db_two_accounts u2 "tok-1" eq_refl eq_refl)
               503%N (or_intror eq_refl) eq_refl (Hfree 503%N ltac:(discriminate)))).
    + reflexivity.
    + intros d Hd. apply list_elem_of_singleton in Hd. subst d.
      left. discriminate.
    + exists {| users.id := u2; users.email := None; users.display_name := None;
                users.created_at := Some 2000; users.updated_at := Some 2000;
                users.photo_url := None |}.
      split; [apply list_elem_of_further, list_elem_of_here | reflexivity].
Defined.

(** C10. The timestamp columns are protected on UPDATE only.  An INSERT
    into [users] or [devices] that succeeds stores the [created_at] and
    [updated_at] it was given exactly as given (NULL included); the
    CURRENT_TIMESTAMP default is used only for a column the INSERT left
    out.  No trigger runs on INSERT. *)
Theorem insert_stores_supplied_timestamps (who : principal) (e : env) (s : db) :
  (∀ v s', insert_users who e v s = Ok s' →
     ∃ r, s' = {| tbl_users := tbl_users s ++ [r]; tbl_devices := tbl_devices s |}
       ∧ users.created_at r
         = match users.v_created_at v with
           | VALUE given => given
           | DEFAULT => Some (NOW e)
           end
       ∧ users.updated_at r
         = match users.v_updated_at v with
           | VALUE given => given
           | DEFAULT => Some (NOW e)
           end)
  ∧ (∀ v s', insert_devices who e v s = Ok s' →
     ∃ r, s' = {| tbl_users := tbl_users s; tbl_devices := tbl_devices s ++ [r] |}
       ∧ devices.created_at r
         = match devices.v_created_at v with
           | VALUE given => given
           | DEFAULT => Some (NOW e)
           end
       ∧ devices.updated_at r
         = match devices.v_updated_at v with
           | VALUE given => given
           | DEFAULT => Some (NOW e)
           end).
Proof.
  split; intros v s' Hins.
  - rewrite insert_users_eq in Hins.
    destruct (check_passes _ _ _ _); [| discriminate].
    destruct (users.check_not_null _) as [r |] eqn:Hnn; [| discriminate].
    destruct (violated_index r (tbl_users s)); [discriminate |].
    injection Hins as <-. exists r.
    apply users_not_null_Ok in Hnn as (_ & -> & ->). simpl.
    destruct (users.v_created_at v), (users.v_updated_at v); auto.
  - rewrite insert_devices_eq in Hins.
    destruct (check_passes _ _ _ _); [| discriminate].
    destruct (devices.check_not_null _) as [r |] eqn:Hnn; [| discriminate].
    destruct (violated_index r (tbl_devices s)); [discriminate |].
    destruct (references_user (tbl_users s) r); [| discriminate].
    injection Hins as <-. exists r.
    apply devices_not_null_Ok in Hnn as (_ & _ & _ & -> & ->). simpl.
    destruct (devices.v_created_at v), (devices.v_updated_at v); auto.
Qed.

Lemma insert_stores_supplied_timestamps_witness :
  (∃ r, tbl_devices db_backdated = [u1_device; r]
        ∧ devices.created_at r = Some 5
        ∧ devices.updated_at r = Some 9999)
  ∧ (∃ r, insert_users Definer t1 imported_user db_registered
          = Ok {| tbl_users := [u1_row; r]; tbl_devices := [u1_device] |}
        ∧ users.created_at r = Some 7
        ∧ users.updated_at r = None).
Proof.
  split.
  - destruct (proj2 (insert_stores_supplied_timestamps (Authenticated u1) t1
                       db_registered)
                (backdated u1 "tok-2" (Some 5) (Some 9999)) db_backdated eq_refl)
      as (r & Hs & Hc & Hu).
    exists r. rewrite Hs. repeat split; assumption.
  - destruct (proj1 (insert_stores_supplied_timestamps Definer t1 db_registered)
                imported_user db_imported eq_refl)
      as (r & Hs & Hc & Hu).
    exists r. repeat split; try assumption.
    change (insert_users Definer t1 imported_user db_registered)
      with (Ok db_imported).
    rewrite Hs. reflexivity.
Defined.

(** ** Updating rows *)

Lemma update_row_Ok `{T : Table row tuple} who e assign (old new : row) others :
  update_row who e assign old others = Ok new →
  check_passes who relid UPDATE (uuid_cols (handle_updated_at e (assign old))) = true
  ∧ not_null (handle_updated_at e (assign old)) = Ok new.
Proof.
  unfold update_row.
  destruct (check_passes _ _ _ _); [| discriminate].
  destruct (using_passes _ _ _ _); [| discriminate].
  destruct (not_null _) as [r |]; simpl; [| discriminate].
  intros [-> _]%check_unique_Ok. auto.
Qed.

Lemma users_update_row_Ok who e assign (old new : users.row) others :
  update_row who e assign old others = Ok new →
  users.updated_at new = Some (NOW e)
  ∧ users.t_id (assign old) = Some (users.id new)
  ∧ check_passes who public_users UPDATE
      (users.cols (users.touch (Some (NOW e)) (assign old))) = true.
Proof.
  intros [Hcheck Hnn]%update_row_Ok.
  apply users_not_null_Ok in Hnn as (Hid & _ & Hup). auto.
Qed.

Lemma devices_update_row_Ok who e assign (old new : devices.row) others :
  update_row who e assign old others = Ok new →
  devices.updated_at new = Some (NOW e)
  ∧ devices.t_user_id (assign old) = Some (devices.user_id new)
  ∧ check_passes who public_devices UPDATE
      (devices.cols (devices.touch (Some (NOW e)) (assign old))) = true.
Proof.
  intros [Hcheck Hnn]%update_row_Ok.
  apply devices_not_null_Ok in Hnn as (_ & Hu & _ & _ & Hup). auto.
Qed.

Lemma update_users_Ok who e w assign s s' n :
  update_users who e w assign s = Ok (s', n) →
  Forall2 (row_updated who e w assign) (tbl_users s) (tbl_users s')
  ∧ tbl_devices s' = tbl_devices s.
Proof.
  unfold update_users.
  destruct (update_rows who e w assign [] (tbl_users s)) as [[us' ch] |] eqn:Hup;
    simpl; [| discriminate].
  destruct (forallb _ ch); [| discriminate].
  intros [= <- _]. apply update_rows_inv in Hup as [Hall _]. auto.
Qed.

Lemma update_devices_Ok who e w assign s s' n :
  update_devices who e w assign s = Ok (s', n) →
  Forall2 (row_updated who e w assign) (tbl_devices s) (tbl_devices s')
  ∧ tbl_users s' = tbl_users s.
Proof.
  unfold update_devices.
  destruct (update_rows who e w assign [] (tbl_devices s)) as [[ds' ch] |] eqn:Hup;
    simpl; [| discriminate].
  destruct (forallb _ ch); [| discriminate].
  intros [= <- _]. apply update_rows_inv in Hup as [Hall _]. auto.
Qed.

Lemma ts_lt_now (old : option timestamptz) (now : timestamptz) :
  ts_lt old (Some now) = true ↔ ∃ t, old = Some t ∧ t < now.
Proof.
  destruct old as [t |]; simpl.
  - rewrite Z.ltb_lt. split; [eauto |]. intros (t' & [= <-] & Hlt). exact Hlt.
  - split; [discriminate |]. intros (t & Hf & _). discriminate.
Qed.

(** C4, as the specification states it, fails: [updated_at] after an
    update need not be strictly greater than before.  A row updated in
    the transaction that created it keeps its value, here although the
    caller tried to set another one; a row inserted with an [updated_at]
    in the future goes back to the current time. *)
Lemma update_need_not_advance_updated_at :
  (execute (Authenticated u1) t0
     (UpdateUsers (fun _ => true) (set_user_updated_at (Some 5000))) db_signed_up
   = (affected 1, db_signed_up)
   ∧ tbl_users db_signed_up = [u1_row]
   ∧ ts_lt (users.updated_at u1_row) (users.updated_at u1_row) = false)
  ∧ (∃ before after,
       tbl_devices db_backdated = [u1_device; before]
       ∧ execute (Authenticated u1) t2
           (UpdateDevices (fun d => N.eqb (devices.id d) 600) (set_fcm_token "tok-3"))
           db_backdated
         = (affected 1, {| tbl_users := [u1_row]; tbl_devices := [u1_device; after] |})
       ∧ devices.updated_at before = Some 9999
       ∧ devices.updated_at after = Some 3000
       ∧ ts_lt (devices.updated_at before) (devices.updated_at after) = false).
Proof.
  split.
  - repeat split; reflexivity.
  - eexists _, _. repeat split; reflexivity.
Qed.

(** C4, amended. Every row that a successful UPDATE of [users] or
    [devices] changes has its [updated_at] set to the current time NOW(),
    whatever the SET clause supplied for that column, and every other row
    is as it was.  The new value is strictly greater than the old one
    exactly when the old one was not NULL and earlier than NOW(). *)
Theorem update_stamps_current_time (who : principal) (e : env) (s : db) :
  (∀ w assign s' n, update_users who e w assign s = Ok (s', n) →
     Forall2 (fun old new =>
                if targets who UPDATE w old
                then users.updated_at new = Some (NOW e)
                     ∧ (ts_lt (users.updated_at old) (users.updated_at new) = true
                        ↔ ∃ t, users.updated_at old = Some t ∧ t < NOW e)
                else new = old)
             (tbl_users s) (tbl_users s'))
  ∧ (∀ w assign s' n, update_devices who e w assign s = Ok (s', n) →
     Forall2 (fun old new =>
                if targets who UPDATE w old
                then devices.updated_at new = Some (NOW e)
                     ∧ (ts_lt (devices.updated_at old) (devices.updated_at new) = true
                        ↔ ∃ t, devices.updated_at old = Some t ∧ t < NOW e)
                else new = old)
             (tbl_devices s) (tbl_devices s')).
Proof.
  split; intros w assign s' n Hup.
  - apply update_users_Ok in Hup as [Hall _].
    eapply Forall2_impl; [exact Hall |].
    intros old new Hrow. unfold row_updated in Hrow.
    destruct (targets who UPDATE w old); [| exact Hrow].
    destruct Hrow as [others (Hnow & _)%users_update_row_Ok].
    rewrite Hnow. split; [reflexivity | apply ts_lt_now].
  - apply update_devices_Ok in Hup as [Hall _].
    eapply Forall2_impl; [exact Hall |].
    intros old new Hrow. unfold row_updated in Hrow.
    destruct (targets who UPDATE w old); [| exact Hrow].
    destruct Hrow as [others (Hnow & _)%devices_update_row_Ok].
    rewrite Hnow. split; [reflexivity | apply ts_lt_now].
Qed.

Lemma update_stamps_current_time_witness :
  (update_users (Authenticated u1) t2 (fun _ => true)
     (set_user_updated_at (Some 5)) db_registered
   = Ok (db_profile_edited, 1%nat)
   ∧ ∃ new, tbl_users db_profile_edited = [new]
            ∧ users.updated_at new = Some 3000)
  ∧ (update_devices (Authenticated u1) t2 (fun d => N.eqb (devices.id d) 501)
       (set_fcm_token "tok-1b") db_registered
     = Ok (db_token_refreshed, 1%nat)
     ∧ ∃ new, tbl_devices db_token_refreshed = [new]
              ∧ devices.updated_at new = Some 3000).
Proof.
  split; (split; [reflexivity |]).
  - pose proof (proj1 (update_stamps_current_time (Authenticated u1) t2 db_registered)
                  (fun _ => true) (set_user_updated_at (Some 5))
                  db_profile_edited 1%nat eq_refl) as Hall.
    apply Forall2_cons_1 in Hall as [[Hnow _] _].
    eexists. split; [reflexivity | exact Hnow].
  - pose proof (proj2 (update_stamps_current_time (Authenticated u1) t2 db_registered)
                  (fun d => N.eqb (devices.id d) 501) (set_fcm_token "tok-1b")
                  db_token_refreshed 1%nat eq_refl) as Hall.
    apply Forall2_cons_1 in Hall as [[Hnow _] _].
    eexists. split; [reflexivity | exact Hnow].
Defined.

(** C6. No permitted update changes the owner of a row.  When a caller's
    UPDATE succeeds, every [users] row has the [id] it had and every
    [devices] row the [user_id] it had: USING admits only rows whose owner
    key is the caller's identity and WITH CHECK only new rows whose owner
    key is still that identity.  A device cannot be handed to another
    user by an update. *)
Theorem permitted_update_keeps_owner (who : principal) (e : env) (s : db)
    (Hcaller : bypasses_rls who = false) :
  (∀ w assign s' n, update_users who e w assign s = Ok (s', n) →
     Forall2 (fun old new => users.id new = users.id old)
             (tbl_users s) (tbl_users s'))
  ∧ (∀ w assign s' n, update_devices who e w assign s = Ok (s', n) →
     Forall2 (fun old new => devices.user_id new = devices.user_id old)
             (tbl_devices s) (tbl_devices s')).
Proof.
  destruct who as [| A |]; [| | discriminate].
  - (* anon: no row is targeted *)
    split; intros w assign s' n Hup.
    + apply update_users_Ok in Hup as [Hall _].
      eapply Forall2_impl; [exact Hall |]. intros old new Hrow.
      unfold row_updated in Hrow. rewrite targets_anon in Hrow. congruence.
    + apply update_devices_Ok in Hup as [Hall _].
      eapply Forall2_impl; [exact Hall |]. intros old new Hrow.
      unfold row_updated in Hrow. rewrite targets_anon in Hrow. congruence.
  - split; intros w assign s' n Hup.
    + apply update_users_Ok in Hup as [Hall _].
      eapply Forall2_impl; [exact Hall |]. intros old new Hrow.
      unfold row_updated in Hrow. rewrite targets_users in Hrow by congruence.
      destruct (N.eqb A (users.id old)) eqn:Hold; simpl in Hrow;
        [| congruence].
      destruct (w old); [| congruence].
      destruct Hrow as [others (_ & Hid & Hcheck)%users_update_row_Ok].
      rewrite check_passes_users_update in Hcheck. simpl in Hcheck.
      rewrite Hid in Hcheck.
      apply N.eqb_eq in Hold, Hcheck. congruence.
    + apply update_devices_Ok in Hup as [Hall _].
      eapply Forall2_impl; [exact Hall |]. intros old new Hrow.
      unfold row_updated in Hrow. rewrite targets_devices in Hrow by congruence.
      destruct (N.eqb A (devices.user_id old)) eqn:Hold; simpl in Hrow;
        [| congruence].
      destruct (w old); [| congruence].
      destruct Hrow as [others (_ & Hid & Hcheck)%devices_update_row_Ok].
      rewrite check_passes_devices in Hcheck by auto. simpl in Hcheck.
      rewrite Hid in Hcheck.
      apply N.eqb_eq in Hold, Hcheck. congruence.
Qed.

Lemma permitted_update_keeps_owner_witness :
  Forall2 (fun old new => users.id new = users.id old)
          (tbl_users db_registered) (tbl_users db_profile_edited)
  ∧ Forall2 (fun old new => devices.user_id new = devices.user_id old)
            (tbl_devices db_registered) (tbl_devices db_token_refreshed)
  ∧ tbl_devices db_token_refreshed ≠ tbl_devices db_registered.
Proof.
  split; [| split].
  - apply (proj1 (permitted_update_keeps_owner (Authenticated u1) t2 db_registered
                    eq_refl)
             (fun _ => true) (set_user_updated_at (Some 5)) db_profile_edited 1%nat).
    reflexivity.
  - apply (proj2 (permitted_update_keeps_owner (Authenticated u1) t2 db_registered
                    eq_refl)
             (fun d => N.eqb (devices.id d) 501) (set_fcm_token "tok-1b")
             db_token_refreshed 1%nat).
    reflexivity.
  - discriminate.
Defined.

(** The attempt itself is turned down by WITH CHECK. *)
Example reassigning_a_device_is_refused :
  execute (Authenticated u1) t2
    (UpdateDevices (fun _ => true) (set_user_id u2)) db_two_accounts
  = (raised (insufficient_privilege "devices"), db_two_accounts).
Proof. reflexivity. Qed.

(** ** The foreign key holds in every reachable database *)

Lemma update_rows_changed `{T : Table row tuple} who e w assign
    (done todo out : list row) changed :
  update_rows who e w assign done todo = Ok (out, changed) →
  Forall2 (fun old new =>
             if targets who UPDATE w old then (old, new) ∈ changed else new = old)
          todo out.
Proof.
  revert done out changed.
  induction todo as [| r rest IH]; intros done out changed; simpl.
  - intros [= <- <-]. constructor.
  - destruct (targets who UPDATE w r) eqn:Ht.
    + destruct (update_row who e assign r (done ++ rest)) as [new |];
        simpl; [| discriminate].
      destruct (update_rows who e w assign (done ++ [new]) rest)
        as [[out' ch'] |] eqn:Hrec; simpl; [| discriminate].
      intros [= <- <-]. constructor.
      * rewrite Ht. apply list_elem_of_here.
      * eapply Forall2_impl; [exact (IH _ _ _ Hrec) |].
        intros old new' H. simpl in H.
        destruct (targets who UPDATE w old); [| exact H].
        apply list_elem_of_further, H.
    + destruct (update_rows who e w assign (done ++ [r]) rest)
        as [[out' ch'] |] eqn:Hrec; simpl; [| discriminate].
      intros [= <- <-]. constructor; [rewrite Ht; reflexivity |].
      exact (IH _ _ _ Hrec).
Qed.

Lemma fk_valid_spec (s : db) :
  fk_valid s
  ↔ ∀ d, d ∈ tbl_devices s → ∃ u, u ∈ tbl_users s ∧ users.id u = devices.user_id d.
Proof.
  unfold fk_valid. rewrite Forall_forall.
  split; intros H d Hd; apply references_user_spec, H, Hd.
Qed.

Lemma insert_users_fk who e v s s' :
  fk_valid s → insert_users who e v s = Ok s' → fk_valid s'.
Proof.
  rewrite !fk_valid_spec. intros Hfk Hins.
  rewrite insert_users_eq in Hins.
  destruct (check_passes _ _ _ _); [| discriminate].
  destruct (users.check_not_null _) as [r |]; [| discriminate].
  destruct (violated_index r (tbl_users s)); [discriminate |].
  injection Hins as <-. simpl. intros d Hd.
  destruct (Hfk d Hd) as (u & Hu & Hid). exists u.
  split; [apply elem_of_app; auto | assumption].
Qed.

Lemma insert_devices_fk who e v s s' :
  fk_valid s → insert_devices who e v s = Ok s' → fk_valid s'.
Proof.
  unfold fk_valid. intros Hfk Hins.
  rewrite insert_devices_eq in Hins.
  destruct (check_passes _ _ _ _); [| discriminate].
  destruct (devices.check_not_null _) as [r |]; [| discriminate].
  destruct (violated_index r (tbl_devices s)); [discriminate |].
  destruct (references_user (tbl_users s) r) eqn:Href; [| discriminate].
  injection Hins as <-. simpl.
  apply Forall_app. split; [exact Hfk | constructor; [exact Href | constructor]].
Qed.

Lemma update_users_fk who e w assign s s' n :
  fk_valid s → update_users who e w assign s = Ok (s', n) → fk_valid s'.
Proof.
  rewrite !fk_valid_spec. intros Hfk. unfold update_users.
  destruct (update_rows who e w assign [] (tbl_users s)) as [[us' ch] |] eqn:Hup;
    simpl; [| discriminate].
  destruct (forallb _ ch) eqn:Hall; [| discriminate].
  intros [= <- _]. simpl. intros d Hd.
  destruct (Hfk d Hd) as (u & Hu & Hid).
  apply update_rows_changed in Hup.
  apply list_elem_of_lookup in Hu as [i Hi].
  destruct (Forall2_lookup_l _ _ _ _ _ Hup Hi) as (new & Hnew & Hrel).
  assert (Hin : new ∈ us') by (apply list_elem_of_lookup; eauto).
  destruct (targets who UPDATE w u); [| subst new; eauto].
  rewrite forallb_forall in Hall.
  apply list_elem_of_In, Hall in Hrel. unfold key_update_allowed in Hrel.
  simpl in Hrel.
  apply orb_prop in Hrel as [[Hsame | Hfree]%orb_prop | Hother].
  - apply N.eqb_eq in Hsame. exists new. split; [assumption | congruence].
  - apply negb_true_iff in Hfree.
    assert (referenced_by (tbl_devices s) u = true); [| congruence].
    unfold referenced_by. apply existsb_exists. exists d.
    split; [apply list_elem_of_In; assumption | apply N.eqb_eq; congruence].
  - apply existsb_exists in Hother as (u' & Hu' & Heq).
    apply N.eqb_eq in Heq. exists u'.
    split; [apply list_elem_of_In; assumption | congruence].
Qed.

Lemma update_devices_fk who e w assign s s' n :
  fk_valid s → update_devices who e w assign s = Ok (s', n) → fk_valid s'.
Proof.
  unfold fk_valid. intros Hfk. unfold update_devices.
  destruct (update_rows who e w assign [] (tbl_devices s)) as [[ds' ch] |] eqn:Hup;
    simpl; [| discriminate].
  destruct (forallb _ ch) eqn:Hall; [| discriminate].
  intros [= <- _]. simpl.
  apply update_rows_changed in Hup.
  rewrite Forall_forall in Hfk. apply Forall_forall. intros new Hnew.
  apply list_elem_of_lookup in Hnew as [i Hi].
  destruct (Forall2_lookup_r _ _ _ _ _ Hup Hi) as (old & Hold & Hrel).
  assert (Hin : old ∈ tbl_devices s) by (apply list_elem_of_lookup; eauto).
  destruct (targets who UPDATE w old); [| subst new; auto].
  rewrite forallb_forall in Hall.
  apply list_elem_of_In, Hall in Hrel. unfold owner_update_allowed in Hrel.
  simpl in Hrel. apply orb_prop in Hrel as [Hsame | Href]; [| exact Href].
  apply N.eqb_eq in Hsame.
  apply references_user_spec.
  destruct (proj1 (references_user_spec _ _) (Hfk old Hin)) as (u & Hu & Hid).
  exists u. split; [assumption | congruence].
Qed.

Lemma delete_users_fk who w s s' n :
  fk_valid s → delete_users who w s = Ok (s', n) → fk_valid s'.
Proof.
  rewrite !fk_valid_spec. intros Hfk. unfold delete_users, delete_rows.
  intros [= <- _]. simpl.
  intros d [Hd Hkeep]%elem_of_List_filter.
  apply negb_true_iff in Hkeep.
  destruct (Hfk d Hd) as (u & Hu & Hid). exists u. split; [| assumption].
  apply elem_of_List_filter. split; [assumption |].
  destruct (targets who DELETE w u) eqn:Ht; [| reflexivity].
  assert (references_user (List.filter (targets who DELETE w) (tbl_users s)) d
          = true); [| congruence].
  apply references_user_spec. exists u.
  split; [apply elem_of_List_filter; auto | assumption].
Qed.

Lemma delete_devices_fk who w s s' n :
  fk_valid s → delete_devices who w s = Ok (s', n) → fk_valid s'.
Proof.
  unfold fk_valid, delete_devices, delete_rows. intros Hfk [= <- _]. simpl.
  rewrite Forall_forall in Hfk. apply Forall_forall.
  intros d [Hd _]%elem_of_List_filter. auto.
Qed.

Lemma execute_fk who e stmt s :
  fk_valid s → fk_valid (snd (execute who e stmt s)).
Proof.
  intros Hfk.
  destruct stmt as [w | v | w assign | w | w | v | w assign | w]; cbn [execute snd];
    try assumption.
  - destruct (insert_users who e v s) as [s' |] eqn:Hins; simpl; [| assumption].
    eapply insert_users_fk; eauto.
  - destruct (update_users who e w assign s) as [[s' n] |] eqn:Hup; simpl;
      [| assumption].
    eapply update_users_fk; eauto.
  - destruct (delete_users who w s) as [[s' n] |] eqn:Hdel; simpl; [| assumption].
    eapply delete_users_fk; eauto.
  - destruct (insert_devices who e v s) as [s' |] eqn:Hins; simpl; [| assumption].
    eapply insert_devices_fk; eauto.
  - destruct (update_devices who e w assign s) as [[s' n] |] eqn:Hup; simpl;
      [| assumption].
    eapply update_devices_fk; eauto.
  - destruct (delete_devices who w s) as [[s' n] |] eqn:Hdel; simpl; [| assumption].
    eapply delete_devices_fk; eauto.
Qed.

(** X1. The foreign key [devices_user_id_fkey] holds in every database
    that statements and provider events can produce from the empty one:
    every [devices] row refers to a stored [users] row, so there is never
    an orphan, whoever issued the statements. *)
Lemma reachable_fk_valid (s : db) : reachable s → fk_valid s.
Proof.
  induction 1 as [| who e stmt s _ IH | e NEW s _ IH | OLD s _ IH].
  - constructor.
  - apply execute_fk, IH.
  - unfold on_auth_user_created, handle_new_user.
    destruct (insert_users Definer e _ s) as [s' |] eqn:Hins; simpl; [| exact IH].
    eapply insert_users_fk; eauto.
  - unfold on_auth_user_deleted, handle_deleted_user.
    destruct (delete_users Definer _ s) as [[s' n] |] eqn:Hdel; simpl; [| exact IH].
    eapply delete_users_fk; eauto.
Qed.

(** ** The scenario, end to end *)

Example scenario_end_to_end :
  (* u1 signs up: e-mail set, display name unset *)
  (∃ u, tbl_users db_signed_up = [u]
        ∧ users.email u = Some "a@example.com"
        ∧ users.display_name u = None)
  (* u1 registers "tok-1": one device, owned by u1 *)
  ∧ (∃ d, tbl_devices db_registered = [d] ∧ devices.user_id d = u1)
  (* u1 registers "tok-1" again: rejected as a duplicate *)
  ∧ execute (Authenticated u1) t1 (InsertDevices (register u1 "tok-1")) db_registered
    = (raised (unique_violation "devices_user_id_fcm_token_key"), db_registered)
  (* u2 reads u1's device: nothing comes back *)
  ∧ execute (Authenticated u2) t1
      (SelectDevices (fun d => N.eqb (devices.user_id d) u1)) db_registered
    = (devices_rows [], db_registered)
  (* u1 is deleted at the provider: the row and the device are gone *)
  ∧ on_auth_user_deleted u1_account db_registered = empty_db
  ∧ reachable db_registered.
Proof.
  split; [exists u1_row; repeat split; reflexivity |].
  split; [exists u1_device; split; reflexivity |].
  repeat split; try reflexivity.
  apply (reach_statement (Authenticated u1) t0
           (InsertDevices (register u1 "tok-1")) db_signed_up).
  apply (reach_created t0 u1_account empty_db), reach_migrated.
Qed.

(** ** The unique indexes hold in every reachable database *)

Local Open Scope list_scope.

Section UniqueIndex.
Context `{T : Table row tuple} {K : Type} (key : row -> K).
Context (conname : string) (collides : row -> row -> bool).
Hypothesis Hindex : (conname, collides) ∈ unique_indexes.
Hypothesis Hkey : ∀ a b, collides a b = true ↔ key a = key b.

Lemma violated_index_fresh (r : row) (t : list row) :
  violated_index r t = None → key r ∉ key <$> t.
Proof.
  unfold violated_index.
  destruct (List.find _ unique_indexes) as [ix |] eqn:Hfind; [discriminate |].
  intros _ (o & Heq & Hin)%list_elem_of_fmap.
  apply list_elem_of_In in Hindex.
  pose proof (find_none _ _ Hfind _ Hindex) as Hnone. simpl in Hnone.
  assert (existsb (collides r) t = true); [| congruence].
  apply existsb_exists. exists o.
  split; [apply list_elem_of_In; assumption | apply Hkey; assumption].
Qed.

Lemma NoDup_middle (x : K) (l1 l2 : list K) :
  NoDup (l1 ++ x :: l2) ↔ (x ∉ l1 ++ l2) ∧ NoDup (l1 ++ l2).
Proof. rewrite <- Permutation_middle. apply NoDup_cons. Qed.

Lemma insert_row_NoDup who new (t : list row) (r : row) :
  NoDup (key <$> t) → insert_row who new t = Ok r →
  NoDup (key <$> (t ++ [r])).
Proof.
  intros Hnd. unfold insert_row.
  destruct (check_passes _ _ _ _); [| discriminate].
  destruct (not_null new) as [r0 |]; simpl; [| discriminate].
  intros [-> Hfree%violated_index_fresh]%check_unique_Ok.
  rewrite fmap_app. simpl. apply NoDup_middle.
  rewrite app_nil_r. auto.
Qed.

Lemma update_rows_NoDup who e w assign (done todo out : list row) changed :
  NoDup (key <$> (done ++ todo)) →
  update_rows who e w assign done todo = Ok (out, changed) →
  NoDup (key <$> (done ++ out)).
Proof.
  revert done out changed.
  induction todo as [| r rest IH]; intros done out changed Hnd; simpl.
  - intros [= <- <-]. exact Hnd.
  - rewrite fmap_app in Hnd. simpl in Hnd.
    apply NoDup_middle in Hnd as [Hr Hnd]. rewrite <- fmap_app in Hr, Hnd.
    destruct (targets who UPDATE w r).
    + destruct (update_row who e assign r (done ++ rest)) as [new |] eqn:Hrow;
        simpl; [| discriminate].
      destruct (update_rows who e w assign (done ++ [new]) rest)
        as [[out' ch'] |] eqn:Hrec; simpl; [| discriminate].
      intros [= <- <-].
      assert (Hfree : key new ∉ key <$> (done ++ rest)).
      { unfold update_row in Hrow.
        destruct (_ && _); [| discriminate].
        destruct (not_null _) as [r0 |]; simpl in Hrow; [| discriminate].
        apply check_unique_Ok in Hrow as [-> Hnone].
        apply violated_index_fresh, Hnone. }
      replace (done ++ new :: out') with ((done ++ [new]) ++ out')
        by (rewrite <- app_assoc; reflexivity).
      eapply IH; [| exact Hrec].
      rewrite <- app_assoc. simpl. rewrite fmap_app. simpl.
      apply NoDup_middle. rewrite <- fmap_app. auto.
    + destruct (update_rows who e w assign (done ++ [r]) rest)
        as [[out' ch'] |] eqn:Hrec; simpl; [| discriminate].
      intros [= <- <-].
      replace (done ++ r :: out') with ((done ++ [r]) ++ out')
        by (rewrite <- app_assoc; reflexivity).
      eapply IH; [| exact Hrec].
      rewrite <- app_assoc. simpl. rewrite fmap_app. simpl.
      apply NoDup_middle. rewrite <- fmap_app. auto.
Qed.

End UniqueIndex.

Lemma users_pkey_key (a b : users.row) :
  users.users_pkey a b = true ↔ users.id a = users.id b.
Proof. apply N.eqb_eq. Qed.

Lemma devices_pkey_key (a b : devices.row) :
  devices.devices_pkey a b = true ↔ devices.id a = devices.id b.
Proof. apply N.eqb_eq. Qed.

Lemma devices_pair_key (a b : devices.row) :
  devices.devices_user_id_fcm_token_key a b = true
  ↔ device_pair a = device_pair b.
Proof.
  unfold devices.devices_user_id_fcm_token_key, device_pair.
  rewrite andb_true_iff, N.eqb_eq, String.eqb_eq.
  split; [intros [-> ->]; reflexivity | intros [= -> ->]; auto].
Qed.

Lemma users_pkey_listed : ("users_pkey", users.users_pkey) ∈ @unique_indexes _ _ users.table.
Proof. apply list_elem_of_here. Qed.

Lemma devices_pkey_listed :
  ("devices_pkey", devices.devices_pkey) ∈ @unique_indexes _ _ devices.table.
Proof. apply list_elem_of_here. Qed.

Lemma devices_pair_listed :
  ("devices_user_id_fcm_token_key", devices.devices_user_id_fcm_token_key)
  ∈ @unique_indexes _ _ devices.table.
Proof. apply list_elem_of_further, list_elem_of_here. Qed.

Lemma NoDup_fmap_List_filter {A K} (key : A -> K) (f : A -> bool) (l : list A) :
  NoDup (key <$> l) → NoDup (key <$> List.filter f l).
Proof.
  induction l as [| x l IH]; simpl; [auto |].
  rewrite NoDup_cons. intros [Hx Hnd].
  destruct (f x); [| auto]. simpl. apply NoDup_cons. split; [| auto].
  intros (y & Heq & [Hin _]%elem_of_List_filter)%list_elem_of_fmap.
  apply Hx, list_elem_of_fmap. eauto.
Qed.

Lemma insert_users_unique who e v s s' :
  unique_valid s → insert_users who e v s = Ok s' → unique_valid s'.
Proof.
  intros (Hu & Hd & Hp). unfold insert_users.
  destruct (insert_row who (users.defaults e v) (tbl_users s)) as [r |] eqn:Hins;
    simpl; [| discriminate].
  intros [= <-]. repeat split; simpl; try assumption.
  exact (insert_row_NoDup users.id _ _ users_pkey_listed users_pkey_key
           who _ _ r Hu Hins).
Qed.

Lemma insert_devices_unique who e v s s' :
  unique_valid s → insert_devices who e v s = Ok s' → unique_valid s'.
Proof.
  intros (Hu & Hd & Hp). unfold insert_devices.
  destruct (insert_row who (devices.defaults e v) (tbl_devices s)) as [r |] eqn:Hins;
    simpl; [| discriminate].
  destruct (references_user (tbl_users s) r); [| discriminate].
  intros [= <-]. repeat split; simpl; try assumption.
  - exact (insert_row_NoDup devices.id _ _ devices_pkey_listed devices_pkey_key
             who _ _ r Hd Hins).
  - exact (insert_row_NoDup device_pair _ _ devices_pair_listed devices_pair_key
             who _ _ r Hp Hins).
Qed.

Lemma update_users_unique who e w assign s s' n :
  unique_valid s → update_users who e w assign s = Ok (s', n) → unique_valid s'.
Proof.
  intros (Hu & Hd & Hp). unfold update_users.
  destruct (update_rows who e w assign [] (tbl_users s)) as [[us' ch] |] eqn:Hup;
    simpl; [| discriminate].
  destruct (forallb _ ch); [| discriminate].
  intros [= <- _]. repeat split; simpl; try assumption.
  exact (update_rows_NoDup users.id _ _ users_pkey_listed users_pkey_key
           who e w assign [] _ _ _ Hu Hup).
Qed.

Lemma update_devices_unique who e w assign s s' n :
  unique_valid s → update_devices who e w assign s = Ok (s', n) → unique_valid s'.
Proof.
  intros (Hu & Hd & Hp). unfold update_devices.
  destruct (update_rows who e w assign [] (tbl_devices s)) as [[ds' ch] |] eqn:Hup;
    simpl; [| discriminate].
  destruct (forallb _ ch); [| discriminate].
  intros [= <- _]. repeat split; simpl; try assumption.
  - exact (update_rows_NoDup devices.id _ _ devices_pkey_listed devices_pkey_key
             who e w assign [] _ _ _ Hd Hup).
  - exact (update_rows_NoDup device_pair _ _ devices_pair_listed devices_pair_key
             who e w assign [] _ _ _ Hp Hup).
Qed.

Lemma delete_users_unique who w s s' n :
  unique_valid s → delete_users who w s = Ok (s', n) → unique_valid s'.
Proof.
  intros (Hu & Hd & Hp). unfold delete_users, delete_rows.
  intros [= <- _]. repeat split; simpl; apply NoDup_fmap_List_filter; assumption.
Qed.

Lemma delete_devices_unique who w s s' n :
  unique_valid s → delete_devices who w s = Ok (s', n) → unique_valid s'.
Proof.
  intros (Hu & Hd & Hp). unfold delete_devices, delete_rows.
  intros [= <- _]. repeat split; simpl; try assumption;
    apply NoDup_fmap_List_filter; assumption.
Qed.

Lemma execute_unique who e stmt s :
  unique_valid s → unique_valid (snd (execute who e stmt s)).
Proof.
  intros Hok.
  destruct stmt as [w | v | w assign | w | w | v | w assign | w]; cbn [execute snd];
    try assumption.
  - destruct (insert_users who e v s) as [s' |] eqn:Hins; simpl; [| assumption].
    eapply insert_users_unique; eauto.
  - destruct (update_users who e w assign s) as [[s' n] |] eqn:Hup; simpl;
      [| assumption].
    eapply update_users_unique; eauto.
  - destruct (delete_users who w s) as [[s' n] |] eqn:Hdel; simpl; [| assumption].
    eapply delete_users_unique; eauto.
  - destruct (insert_devices who e v s) as [s' |] eqn:Hins; simpl; [| assumption].
    eapply insert_devices_unique; eauto.
  - destruct (update_devices who e w assign s) as [[s' n] |] eqn:Hup; simpl;
      [| assumption].
    eapply update_devices_unique; eauto.
  - destruct (delete_devices who w s) as [[s' n] |] eqn:Hdel; simpl; [| assumption].
    eapply delete_devices_unique; eauto.
Qed.

Lemma created_unique e NEW s :
  unique_valid s → unique_valid (on_auth_user_created e NEW s).
Proof.
  intros Hok. unfold on_auth_user_created, handle_new_user.
  destruct (insert_users Definer e _ s) as [s' |] eqn:Hins; simpl; [| exact Hok].
  eapply insert_users_unique; eauto.
Qed.

Lemma deleted_unique OLD s :
  unique_valid s → unique_valid (on_auth_user_deleted OLD s).
Proof.
  intros Hok. unfold on_auth_user_deleted, handle_deleted_user.
  destruct (delete_users Definer _ s) as [[s' n] |] eqn:Hdel; simpl; [| exact Hok].
  eapply delete_users_unique; eauto.
Qed.

Lemma reachable_db_registered : reachable db_registered.
Proof.
  apply (reach_statement (Authenticated u1) t0
           (InsertDevices (register u1 "tok-1")) db_signed_up).
  apply (reach_created t0 u1_account empty_db), reach_migrated.
Defined.

Lemma reachable_db_backdated : reachable db_backdated.
Proof.
  apply (reach_statement (Authenticated u1) t1
           (InsertDevices (backdated u1 "tok-2" (Some 5) (Some 9999))) db_registered).
  exact reachable_db_registered.
Defined.

(** X2. The unique indexes hold in every database that statements and
    provider events can produce from the empty one: no two [users] rows
    share an [id], no two [devices] rows share an [id], and no two
    [devices] rows share the pair (user_id, fcm_token) -- whoever issued
    the statements, the owner of the tables included. *)
Theorem reachable_unique_valid (s : db) : reachable s → unique_valid s.
Proof.
  induction 1 as [| who e stmt s _ IH | e NEW s _ IH | OLD s _ IH].
  - repeat split; constructor.
  - apply execute_unique, IH.
  - apply created_unique, IH.
  - apply deleted_unique, IH.
Qed.

Lemma reachable_unique_valid_witness :
  reachable db_backdated
  ∧ NoDup (device_pair <$> tbl_devices db_backdated).
Proof.
  split; [exact reachable_db_backdated |].
  apply (reachable_unique_valid db_backdated reachable_db_backdated).
Defined.

Lemma reachable_fk_valid_witness :
  reachable db_backdated
  ∧ ∀ d, d ∈ tbl_devices db_backdated →
      ∃ u, u ∈ tbl_users db_backdated ∧ users.id u = devices.user_id d.
Proof.
  split; [exact reachable_db_backdated |].
  apply fk_valid_spec.
  apply (reachable_fk_valid db_backdated reachable_db_backdated).
Defined.

(** ** One profile per identity *)

Lemma count_users_absent (k : uuid) (us : list users.row) :
  k ∉ users.id <$> us →
  List.filter (fun u => N.eqb (users.id u) k) us = [].
Proof.
  induction us as [| u us IH]; simpl; [reflexivity |].
  rewrite not_elem_of_cons. intros [Hne Hnot].
  destruct (N.eqb (users.id u) k) eqn:Heq; [| auto].
  apply N.eqb_eq in Heq. congruence.
Qed.

Lemma count_users_le_1 (k : uuid) (s : db) :
  NoDup (users.id <$> tbl_users s) → (count_users k s ≤ 1)%nat.
Proof.
  unfold count_users. induction (tbl_users s) as [| u us IH]; simpl; [lia |].
  rewrite NoDup_cons. intros [Hu Hnd].
  destruct (N.eqb (users.id u) k) eqn:Heq; [| auto].
  apply N.eqb_eq in Heq. subst k.
  rewrite count_users_absent by assumption. simpl. lia.
Qed.

(** X3. One profile per identity.  On a database where [users_pkey]
    holds, once an account-created event for key [k] has been handled --
    whether the INSERT went through or was rolled back as a duplicate --
    exactly one [users] row has [id = k]. *)
Theorem created_event_leaves_one_row (e : env) (NEW : auth.users) (s : db)
    (Hpk : NoDup (users.id <$> tbl_users s)) :
  count_users (auth.id NEW) (on_auth_user_created e NEW s) = 1%nat.
Proof.
  unfold on_auth_user_created. rewrite handle_new_user_eq.
  destruct (existsb _ (tbl_users s)) eqn:Hex; simpl.
  - pose proof (count_users_le_1 (auth.id NEW) s Hpk) as Hle.
    destruct (count_users (auth.id NEW) s) as [| [| n]] eqn:Hcount; [| reflexivity | lia].
    apply count_users_zero in Hcount. congruence.
  - apply count_users_zero in Hex. unfold count_users in *. simpl.
    rewrite List.filter_app, length_app, Hex. simpl.
    rewrite N.eqb_refl. reflexivity.
Qed.

Lemma created_event_leaves_one_row_witness :
  NoDup (users.id <$> tbl_users db_registered)
  ∧ count_users u1 (on_auth_user_created t2 u1_account db_registered) = 1%nat
  ∧ count_users u2 (on_auth_user_created t2 u2_account db_registered) = 1%nat.
Proof.
  assert (Hpk : NoDup (users.id <$> tbl_users db_registered)).
  { apply NoDup_singleton. }
  split; [exact Hpk |]. split.
  - apply (created_event_leaves_one_row t2 u1_account db_registered Hpk).
  - apply (created_event_leaves_one_row t2 u2_account db_registered Hpk).
Defined.

(** ** Registering devices: who may, and what a row needs *)

Lemma execute_insert_devices_Err who e v s err :
  insert_devices who e v s = Err err →
  execute who e (InsertDevices v) s = (raised err, s).
Proof. intros H. cbn [execute]. rewrite H. reflexivity. Qed.

(** X4. A caller can register a device only for itself.  An INSERT into
    [devices] by identity A whose [user_id] is anything but A -- another
    identity, NULL, or left out -- is turned down by row security and
    stores nothing; every row that A's INSERT does store is owned by A. *)
Theorem caller_registers_own_devices_only (A : uuid) (e : env)
    (v : devices.values) (s : db) :
  (devices.v_user_id v ≠ VALUE (Some A) →
   execute (Authenticated A) e (InsertDevices v) s
   = (raised (insufficient_privilege "devices"), s))
  ∧ (∀ s', insert_devices (Authenticated A) e v s = Ok s' →
       ∃ r, s' = {| tbl_users := tbl_users s; tbl_devices := tbl_devices s ++ [r] |}
            ∧ devices.user_id r = A).
Proof.
  split.
  - intros Hother. apply execute_insert_devices_Err.
    rewrite insert_devices_eq, check_passes_devices by auto. simpl.
    destruct (devices.v_user_id v) as [| [b |]]; simpl; try reflexivity.
    destruct (N.eqb A b) eqn:Heq; [| reflexivity].
    apply N.eqb_eq in Heq. congruence.
  - intros s' Hins. rewrite insert_devices_eq, check_passes_devices in Hins by auto.
    simpl in Hins.
    destruct (or_default (devices.v_user_id v) None) as [b |] eqn:Hb;
      [| discriminate].
    destruct (N.eqb A b) eqn:Heq; [| discriminate]. apply N.eqb_eq in Heq.
    destruct (devices.check_not_null _) as [r |] eqn:Hnn; [| discriminate].
    destruct (violated_index r (tbl_devices s)); [discriminate |].
    destruct (references_user (tbl_users s) r); [| discriminate].
    injection Hins as <-. exists r. split; [reflexivity |].
    apply devices_not_null_Ok in Hnn as (_ & Hu & _). simpl in Hu.
    rewrite Hb in Hu. congruence.
Qed.

Lemma caller_registers_own_devices_only_witness :
  execute (Authenticated u2) t2 (InsertDevices (register u1 "tok-9")) db_two_accounts
  = (raised (insufficient_privilege "devices"), db_two_accounts)
  ∧ ∃ r, tbl_devices
           (snd (execute (Authenticated u2) t2 (InsertDevices (register u2 "tok-9"))
                   db_two_accounts))
         = [u1_device; r]
         ∧ devices.user_id r = u2.
Proof.
  split.
  - apply (caller_registers_own_devices_only u2 t2 (register u1 "tok-9")
             db_two_accounts).
    discriminate.
  - destruct (proj2 (caller_registers_own_devices_only u2 t2 (register u2 "tok-9")
                       db_two_accounts)
                (snd (execute (Authenticated u2) t2
                        (InsertDevices (register u2 "tok-9")) db_two_accounts))
                eq_refl) as (r & Hs & Hr).
    exists r. rewrite Hs. split; [reflexivity | exact Hr].
Defined.

(** X5. [user_id] and [fcm_token] are required, and [id] may be left out
    but not set to NULL.  Whoever issues it, an INSERT into [devices] that
    leaves out [user_id] or [fcm_token], or gives NULL for one of the
    three, stores nothing.  Issued for a row of its own with no token,
    it raises the not-null violation on [fcm_token]. *)
Theorem devices_insert_requires_columns (who : principal) (e : env)
    (v : devices.values) (s : db)
    (Hmissing : or_default (devices.v_user_id v) None = None
                ∨ or_default (devices.v_fcm_token v) None = None
                ∨ devices.v_id v = VALUE None) :
  is_ok (insert_devices who e v s) = false
  ∧ snd (execute who e (InsertDevices v) s) = s
  ∧ (∀ owner,
       who = Definer ∨ who = Authenticated owner →
       devices.v_user_id v = VALUE (Some owner) →
       devices.v_id v ≠ VALUE None →
       insert_devices who e v s = Err (not_null_violation "fcm_token")).
Proof.
  assert (Hfail : is_ok (insert_devices who e v s) = false).
  { rewrite insert_devices_eq.
    destruct (check_passes _ _ _ _); [| reflexivity].
    destruct (devices.check_not_null _) as [r |] eqn:Hnn; [| reflexivity].
    apply devices_not_null_Ok in Hnn as (Hi & Hu & Ht & _). simpl in Hi, Hu, Ht.
    destruct Hmissing as [H | [H | H]]; rewrite H in *; discriminate. }
  split; [exact Hfail |]. split; [apply execute_insert_devices_failed, Hfail |].
  intros owner Hwho Howner Hid.
  rewrite insert_devices_eq.
  rewrite (check_passes_owner who INSERT owner) by (auto; simpl; rewrite Howner; auto).
  destruct Hmissing as [H | [H | H]]; [rewrite Howner in H; discriminate | | congruence].
  unfold devices.check_not_null. simpl. rewrite Howner, H. simpl.
  destruct (devices.v_id v) as [| [i |]]; simpl; [reflexivity | reflexivity | congruence].
Qed.

Lemma devices_insert_requires_columns_witness :
  insert_devices (Authenticated u1) t1 (tokenless u1) db_registered
  = Err (not_null_violation "fcm_token").
Proof.
  apply (proj2 (proj2 (devices_insert_requires_columns (Authenticated u1) t1
                         (tokenless u1) db_registered
                         (or_intror (or_introl eq_refl)))) u1).
  - right. reflexivity.
  - reflexivity.
  - discriminate.
Defined.

(** X6. A device needs its owner's profile.  Whoever issues it, an INSERT
    into [devices] for a [user_id] that has no [users] row stores nothing;
    when the row is otherwise acceptable the error is the foreign-key
    violation on [devices_user_id_fkey].  So a caller who deleted the own
    profile can no longer register devices. *)
Theorem devices_insert_requires_owner_row (who : principal) (e : env)
    (v : devices.values) (s : db) (owner : uuid)
    (Howner : devices.v_user_id v = VALUE (Some owner))
    (Habsent : ∀ u, u ∈ tbl_users s → users.id u ≠ owner) :
  is_ok (insert_devices who e v s) = false
  ∧ snd (execute who e (InsertDevices v) s) = s
  ∧ (∀ i token,
       who = Definer ∨ who = Authenticated owner →
       or_default (devices.v_id v) (Some (gen_random_uuid e)) = Some i →
       (∀ d, d ∈ tbl_devices s → devices.id d ≠ i) →
       devices.v_fcm_token v = VALUE (Some token) →
       fk_valid s →
       insert_devices who e v s
       = Err (foreign_key_violation "devices_user_id_fkey")).
Proof.
  assert (Hnoref : ∀ r, devices.user_id r = owner →
                        references_user (tbl_users s) r = false).
  { intros r Hr. apply references_user_false, Forall_forall.
    intros u Hu. rewrite Hr. auto. }
  assert (Hfail : is_ok (insert_devices who e v s) = false).
  { rewrite insert_devices_eq.
    destruct (check_passes _ _ _ _); [| reflexivity].
    destruct (devices.check_not_null _) as [r |] eqn:Hnn; [| reflexivity].
    destruct (violated_index r (tbl_devices s)); [reflexivity |].
    apply devices_not_null_Ok in Hnn as (_ & Hu & _). simpl in Hu.
    rewrite Howner in Hu. simpl in Hu.
    rewrite Hnoref by congruence. reflexivity. }
  split; [exact Hfail |]. split; [apply execute_insert_devices_failed, Hfail |].
  intros i token Hwho Hid Hfree Htoken Hfk.
  set (r := {| devices.id := i; devices.user_id := owner;
               devices.fcm_token := token;
               devices.created_at :=
                 or_default (devices.v_created_at v) (Some (NOW e));
               devices.updated_at :=
                 or_default (devices.v_updated_at v) (Some (NOW e)) |}).
  assert (Hnn : devices.check_not_null (devices.defaults e v) = Ok r).
  { unfold devices.check_not_null. simpl. rewrite Hid, Howner, Htoken. reflexivity. }
  rewrite insert_devices_eq.
  rewrite (check_passes_owner who INSERT owner) by (auto; simpl; rewrite Howner; auto).
  rewrite Hnn, devices_violated_index, (pkey_free r) by exact Hfree.
  replace (existsb (devices.devices_user_id_fcm_token_key r) (tbl_devices s))
    with false.
  - rewrite Hnoref by reflexivity. reflexivity.
  - symmetry. apply not_true_is_false. rewrite pair_collides.
    intros (d & Hd & Hdu & _).
    destruct (proj1 (fk_valid_spec s) Hfk d Hd) as (u & Hu & Hid').
    apply (Habsent u Hu). simpl in Hdu. congruence.
Qed.

Lemma devices_insert_requires_owner_row_witness :
  tbl_users db_profile_deleted
  = [{| users.id := u2; users.email := None; users.display_name := None;
        users.created_at := Some 2000; users.updated_at := Some 2000;
        users.photo_url := None |}]
  ∧ insert_devices (Authenticated u1) t2 (register u1 "tok-1") db_profile_deleted
    = Err (foreign_key_violation "devices_user_id_fkey").
Proof.
  split; [reflexivity |].
  apply (proj2 (proj2 (devices_insert_requires_owner_row (Authenticated u1) t2
                         (register u1 "tok-1") db_profile_deleted u1 eq_refl
                         ltac:(intros u Hu; apply list_elem_of_singleton in Hu;
                               subst u; discriminate)))
           503%N "tok-1").
  - right. reflexivity.
  - reflexivity.
  - intros d Hd. apply not_elem_of_nil in Hd. destruct Hd.
  - reflexivity.
  - constructor.
Defined.

(** X9. The unique indexes see every stored row, whatever row security
    hides from the issuer.  A caller's INSERT into [devices] under the
    [id] of any stored device is rejected with the unique violation on
    [devices_pkey], also when that device belongs to someone else and no
    SELECT of the caller returns it. *)
Theorem devices_pkey_sees_hidden_rows (A : uuid) (e : env) (v : devices.values)
    (s : db) (d : devices.row) (token : text)
    (Hstored : d ∈ tbl_devices s)
    (Hid : devices.v_id v = VALUE (Some (devices.id d)))
    (Hown : devices.v_user_id v = VALUE (Some A))
    (Htoken : devices.v_fcm_token v = VALUE (Some token)) :
  execute (Authenticated A) e (InsertDevices v) s
  = (raised (unique_violation "devices_pkey"), s)
  ∧ (devices.user_id d ≠ A → ∀ w, d ∉ select_devices (Authenticated A) w s).
Proof.
  split.
  - apply execute_insert_devices_Err.
    rewrite insert_devices_eq.
    rewrite (check_passes_owner (Authenticated A) INSERT A)
      by (auto; simpl; rewrite Hown; auto).
    unfold devices.check_not_null. simpl. rewrite Hid, Hown, Htoken. simpl.
    rewrite devices_violated_index.
    replace (existsb _ (tbl_devices s)) with true; [reflexivity |].
    symmetry. apply existsb_exists. exists d.
    split; [apply list_elem_of_In; assumption |].
    unfold devices.devices_pkey. simpl. apply N.eqb_refl.
  - intros Hother w. unfold select_devices, select_rows.
    rewrite elem_of_List_filter, targets_devices by congruence.
    intros [_ [Heq _]%andb_prop]. apply N.eqb_eq in Heq. congruence.
Qed.

Lemma devices_pkey_sees_hidden_rows_witness :
  execute (Authenticated u2) t2 (InsertDevices squatting) db_two_accounts
  = (raised (unique_violation "devices_pkey"), db_two_accounts)
  ∧ select_devices (Authenticated u2) (fun _ => true) db_two_accounts = [].
Proof.
  split; [| reflexivity].
  apply (devices_pkey_sees_hidden_rows u2 t2 squatting db_two_accounts
           u1_device "tok-7").
  - apply list_elem_of_here.
  - reflexivity.
  - reflexivity.
  - reflexivity.
Defined.

(** ** A caller deletes the own profile *)

(** X7. The policy "Users can delete their own data" together with the
    cascade: on a database that satisfies the foreign key, an unqualified
    DELETE FROM users by identity A removes A's [users] row and every
    [devices] row owned by A, and nothing else; the command tag counts the
    [users] rows only. *)
Theorem caller_deletes_own_profile (A : uuid) (e : env) (s : db)
    (Hfk : fk_valid s) :
  execute (Authenticated A) e (DeleteUsers (fun _ => true)) s
  = (affected (count_users A s),
     {| tbl_users :=
          List.filter (fun u => negb (N.eqb (users.id u) A)) (tbl_users s);
        tbl_devices :=
          List.filter (fun d => negb (N.eqb (devices.user_id d) A))
                      (tbl_devices s) |}).
Proof.
  cbn [execute]. unfold delete_users, delete_rows. cbn [tagged].
  assert (Ht : ∀ u : users.row,
            targets (Authenticated A) DELETE (fun _ => true) u
            = N.eqb (users.id u) A).
  { intros u. rewrite targets_users by congruence.
    rewrite andb_true_r. apply N.eqb_sym. }
  rewrite (List.filter_ext _ _ Ht).
  rewrite (List.filter_ext (fun r => negb (targets (Authenticated A) DELETE _ r))
             (fun u => negb (N.eqb (users.id u) A)))
    by (intros u; rewrite Ht; reflexivity).
  assert (Hcascade :
            List.filter
              (fun d => negb (references_user
                                (List.filter (fun u => N.eqb (users.id u) A)
                                             (tbl_users s)) d))
              (tbl_devices s)
            = List.filter (fun d => negb (N.eqb (devices.user_id d) A))
                          (tbl_devices s)).
  { apply List.filter_ext_in. intros d Hd. f_equal.
    apply list_elem_of_In in Hd.
    destruct (N.eqb (devices.user_id d) A) eqn:Heq.
    - apply N.eqb_eq in Heq. apply references_user_spec.
      destruct (proj1 (fk_valid_spec s) Hfk d Hd) as (u & Hu & Hid).
      exists u. split; [| assumption].
      apply elem_of_List_filter. split; [assumption |].
      apply N.eqb_eq. congruence.
    - apply N.eqb_neq in Heq. apply references_user_false, Forall_forall.
      intros u [_ Hu%N.eqb_eq]%elem_of_List_filter. congruence. }
  rewrite Hcascade. reflexivity.
Qed.

Lemma caller_deletes_own_profile_witness :
  fk_valid db_two_accounts
  ∧ fst (execute (Authenticated u1) t1 (DeleteUsers (fun _ => true)) db_two_accounts)
    = affected 1
  ∧ tbl_devices db_profile_deleted = [].
Proof.
  assert (Hfk : fk_valid db_two_accounts).
  { constructor; [reflexivity | constructor]. }
  split; [exact Hfk |].
  unfold db_profile_deleted.
  rewrite (caller_deletes_own_profile u1 t1 db_two_accounts Hfk).
  split; reflexivity.
Defined.

(** ** What an update stores, and when it cannot fail *)

Lemma users_not_null_to_tuple (t : users.tuple) (r : users.row) :
  users.check_not_null t = Ok r ↔ users.to_tuple r = t.
Proof.
  unfold users.check_not_null, users.to_tuple. split.
  - destruct t as [i em dn ca ua ph]; simpl.
    destruct i; [| discriminate]. intros [= <-]. reflexivity.
  - intros <-. destruct r; reflexivity.
Qed.

Lemma devices_not_null_to_tuple (t : devices.tuple) (r : devices.row) :
  devices.check_not_null t = Ok r ↔ devices.to_tuple r = t.
Proof.
  unfold devices.check_not_null, devices.to_tuple. split.
  - destruct t as [i u tok ca ua]; simpl.
    destruct i; [| discriminate]. destruct u; [| discriminate].
    destruct tok; [| discriminate]. intros [= <-]. reflexivity.
  - intros <-. destruct r; reflexivity.
Qed.

(** X8. The update trigger overrides [updated_at] and nothing else.
    Every row that a successful UPDATE changes is stored exactly as the
    SET clause assigned it, [created_at] included, with only [updated_at]
    replaced by NOW(); rows the UPDATE does not target are unchanged. *)
Theorem update_stores_what_set_assigned (who : principal) (e : env) (s : db) :
  (∀ w assign s' n, update_users who e w assign s = Ok (s', n) →
     Forall2 (fun old new =>
                if targets who UPDATE w old
                then users.to_tuple new
                     = users.touch (Some (NOW e)) (assign old)
                else new = old)
             (tbl_users s) (tbl_users s'))
  ∧ (∀ w assign s' n, update_devices who e w assign s = Ok (s', n) →
     Forall2 (fun old new =>
                if targets who UPDATE w old
                then devices.to_tuple new
                     = devices.touch (Some (NOW e)) (assign old)
                else new = old)
             (tbl_devices s) (tbl_devices s')).
Proof.
  split; intros w assign s' n Hup.
  - apply update_users_Ok in Hup as [Hall _].
    eapply Forall2_impl; [exact Hall |].
    intros old new Hrow. unfold row_updated in Hrow.
    destruct (targets who UPDATE w old); [| exact Hrow].
    destruct Hrow as [others [_ Hnn]%update_row_Ok].
    apply users_not_null_to_tuple. exact Hnn.
  - apply update_devices_Ok in Hup as [Hall _].
    eapply Forall2_impl; [exact Hall |].
    intros old new Hrow. unfold row_updated in Hrow.
    destruct (targets who UPDATE w old); [| exact Hrow].
    destruct Hrow as [others [_ Hnn]%update_row_Ok].
    apply devices_not_null_to_tuple. exact Hnn.
Qed.

Lemma update_stores_what_set_assigned_witness :
  ∃ new,
    execute (Authenticated u1) t2
      (UpdateUsers (fun _ => true) (set_name_and_created_at (Some "Ann") (Some 1)))
      db_registered
    = (affected 1, {| tbl_users := [new]; tbl_devices := [u1_device] |})
    ∧ users.created_at new = Some 1
    ∧ users.updated_at new = Some 3000.
Proof.
  eexists. split; [reflexivity |].
  pose proof (proj1 (update_stores_what_set_assigned (Authenticated u1) t2
                       db_registered)
                (fun _ => true) (set_name_and_created_at (Some "Ann") (Some 1))
                _ 1%nat eq_refl) as Hall.
  apply Forall2_cons_1 in Hall as [Hnew _]. simpl in Hnew.
  split.
  - exact (f_equal users.t_created_at Hnew).
  - exact (f_equal users.t_updated_at Hnew).
Defined.

Lemma users_check_follows_using who w (u : users.row) (NEW : users.tuple) :
  targets who UPDATE w u = true →
  users.t_id NEW = Some (users.id u) →
  check_passes who public_users UPDATE (users.cols NEW)
  && using_passes who public_users SELECT (users.cols NEW) = true.
Proof.
  intros Ht Hid. destruct who as [| A |].
  - rewrite targets_anon in Ht. discriminate.
  - rewrite targets_users in Ht by congruence.
    apply andb_prop in Ht as [Heq _].
    rewrite check_passes_users_update, using_passes_users by congruence.
    simpl. rewrite Hid, Heq. reflexivity.
  - reflexivity.
Qed.

Lemma users_violated_index (r : users.row) (t : list users.row) :
  violated_index r t
  = if existsb (users.users_pkey r) t then Some "users_pkey" else None.
Proof.
  unfold violated_index. simpl.
  destruct (existsb (users.users_pkey r) t); reflexivity.
Qed.

Lemma users_update_row_eq who e assign (old : users.row) others :
  update_row who e assign old others
  = if check_passes who public_users UPDATE
         (users.cols (users.touch (Some (NOW e)) (assign old)))
       && using_passes who public_users SELECT
            (users.cols (users.touch (Some (NOW e)) (assign old)))
    then match users.check_not_null (users.touch (Some (NOW e)) (assign old)) with
         | Err x => Err x
         | Ok r =>
             match violated_index r others with
             | Some conname => Err (unique_violation conname)
             | None => Ok r
             end
         end
    else Err (insufficient_privilege "users").
Proof.
  unfold update_row, check_unique, handle_updated_at.
  simpl relid. simpl uuid_cols. simpl not_null. simpl relname. simpl set_updated_at.
  destruct (_ && _); [| reflexivity].
  destruct (users.check_not_null _) as [r |]; reflexivity.
Qed.

Lemma update_rows_users_keep_id who e w assign (done todo : list users.row) :
  (∀ u, users.t_id (assign u) = Some (users.id u)) →
  NoDup (users.id <$> (done ++ todo)) →
  ∃ out changed,
    update_rows who e w assign done todo = Ok (out, changed)
    ∧ Forall (fun c => users.id (snd c) = users.id (fst c)) changed
    ∧ length changed = length (List.filter (targets who UPDATE w) todo).
Proof.
  intros Hkeep. revert done.
  induction todo as [| r rest IH]; intros done Hnd; simpl.
  - exists [], []. repeat split. constructor.
  - destruct (targets who UPDATE w r) eqn:Ht.
    + set (new := {| users.id := users.id r;
                     users.email := users.t_email (assign r);
                     users.display_name := users.t_display_name (assign r);
                     users.created_at := users.t_created_at (assign r);
                     users.updated_at := Some (NOW e);
                     users.photo_url := users.t_photo_url (assign r) |}).
      assert (Hrow : update_row who e assign r (done ++ rest) = Ok new).
      { rewrite users_update_row_eq.
        rewrite (users_check_follows_using who w r) by (auto; apply Hkeep).
        assert (Hnn : users.check_not_null
                        (users.touch (Some (NOW e)) (assign r)) = Ok new).
        { unfold users.check_not_null. simpl. rewrite Hkeep. reflexivity. }
        rewrite Hnn, users_violated_index.
        replace (existsb (users.users_pkey new) (done ++ rest)) with false;
          [reflexivity |].
        symmetry. apply not_true_is_false. rewrite existsb_exists.
        intros (o & Ho & Heq). apply N.eqb_eq in Heq. simpl in Heq.
        rewrite fmap_app in Hnd. simpl in Hnd.
        apply NoDup_middle in Hnd as [Hfresh _].
        apply Hfresh. rewrite <- fmap_app, Heq.
        apply list_elem_of_fmap_2, list_elem_of_In, Ho. }
      rewrite Hrow. simpl.
      destruct (IH (done ++ [new])) as (out & ch & -> & Hids & Hlen).
      { rewrite <- app_assoc, fmap_app. rewrite fmap_app in Hnd. exact Hnd. }
      simpl. exists (new :: out), ((r, new) :: ch).
      repeat split; [constructor; auto | simpl; congruence].
    + destruct (IH (done ++ [r])) as (out & ch & -> & Hids & Hlen).
      { rewrite <- app_assoc. exact Hnd. }
      simpl. exists (r :: out), ch. auto.
Qed.

(** X10. A profile edit that leaves [id] alone never fails.  On a
    database where [users_pkey] holds, an UPDATE of [users] whose SET
    clause keeps [id] succeeds whatever it assigns to the other columns
    (NULLs included) and whoever issues it, and its command tag is the
    number of rows that match the WHERE clause and are visible to the
    issuer. *)
Theorem profile_edit_never_fails (who : principal) (e : env)
    (w : users.row -> bool) (assign : users.row -> users.tuple) (s : db)
    (Hkeep : ∀ u, users.t_id (assign u) = Some (users.id u))
    (Hpk : NoDup (users.id <$> tbl_users s)) :
  ∃ s', update_users who e w assign s
        = Ok (s', length (List.filter (targets who UPDATE w) (tbl_users s)))
        ∧ tbl_devices s' = tbl_devices s.
Proof.
  destruct (update_rows_users_keep_id who e w assign [] (tbl_users s) Hkeep Hpk)
    as (out & ch & Hup & Hids & Hlen).
  unfold update_users. rewrite Hup. simpl.
  replace (forallb (key_update_allowed out (tbl_devices s)) ch) with true.
  - rewrite Hlen. eexists. split; reflexivity.
  - symmetry. apply forallb_forall. intros c Hc.
    rewrite Forall_forall in Hids. apply list_elem_of_In, Hids in Hc.
    unfold key_update_allowed. rewrite Hc, N.eqb_refl. reflexivity.
Qed.

Lemma profile_edit_never_fails_witness :
  NoDup (users.id <$> tbl_users db_two_accounts)
  ∧ ∃ s', update_users (Authenticated u2) t2 (fun _ => true)
            (set_name_and_created_at None None) db_two_accounts
          = Ok (s', 1%nat).
Proof.
  assert (Hpk : NoDup (users.id <$> tbl_users db_two_accounts)).
  { apply NoDup_cons. split; [| apply NoDup_singleton].
    intros Hin%list_elem_of_singleton. discriminate. }
  split; [exact Hpk |].
  destruct (profile_edit_never_fails (Authenticated u2) t2 (fun _ => true)
              (set_name_and_created_at None None) db_two_accounts
              (fun u => eq_refl) Hpk) as (s' & Hs' & _).
  exists s'. exact Hs'.
Defined.

(** ** The sign-up form *)

Lemma collect_errors_snoc (issues : list EmailAuth.issue) (i : EmailAuth.issue) :
  EmailAuth.collect_errors (issues ++ [i])
  = EmailAuth.record_issue (EmailAuth.collect_errors issues) i.
Proof. unfold EmailAuth.collect_errors. rewrite fold_left_app. reflexivity. Qed.

Lemma names_filter_snoc (f : string) (issues : list EmailAuth.issue)
    (i : EmailAuth.issue) :
  last (List.filter (EmailAuth.names f) (issues ++ [i]))
  = if EmailAuth.names f i then Some i
    else last (List.filter (EmailAuth.names f) issues).
Proof.
  rewrite List.filter_app. simpl.
  destruct (EmailAuth.names f i); [apply last_snoc | rewrite app_nil_r; reflexivity].
Qed.

Lemma collect_errors_lookup (issues : list EmailAuth.issue) (f : string) :
  EmailAuth.collect_errors issues !! f
  = (if String.eqb f "" || String.eqb f "__proto__" then None
     else (fun i => Some (EmailAuth.message i))
            <$> last (List.filter (EmailAuth.names f) issues)).
Proof.
  induction issues as [| i issues IH] using rev_ind.
  - unfold EmailAuth.collect_errors. simpl. rewrite lookup_empty.
    destruct (_ || _); reflexivity.
  - rewrite collect_errors_snoc, names_filter_snoc.
    unfold EmailAuth.record_issue, EmailAuth.names.
    destruct (EmailAuth.path i) as [| [name | n] rest]; try exact IH.
    destruct (String.eqb_spec name "") as [-> | Hname].
    { rewrite IH. destruct (String.eqb_spec "" f) as [<- | _]; reflexivity. }
    unfold js.set.
    destruct (String.eqb_spec name "__proto__") as [-> | Hproto].
    { rewrite IH. destruct (String.eqb_spec "__proto__" f) as [<- | _];
        [rewrite orb_true_r |]; reflexivity. }
    destruct (String.eqb_spec name f) as [-> | Hf].
    + rewrite lookup_insert_eq.
      destruct (String.eqb_spec f "") as [? | _]; [contradiction |].
      destruct (String.eqb_spec f "__proto__") as [? | _]; [contradiction |].
      reflexivity.
    + rewrite lookup_insert_ne by assumption. exact IH.
Qed.

Lemma collect_errors_get (issues : list EmailAuth.issue) (f : string) :
  js.get (EmailAuth.collect_errors issues) f
  = (if String.eqb f "" || String.eqb f "__proto__" then None
     else EmailAuth.message <$> last (List.filter (EmailAuth.names f) issues)).
Proof.
  unfold js.get. rewrite collect_errors_lookup.
  destruct (_ || _); [reflexivity |].
  destruct (last _); reflexivity.
Qed.

(** X11. The error object that a failed validation builds.  For every
    field name, the own property of [nextErrors] under that name is the
    message of the last issue whose path starts with that name, and there
    is no such property when no issue starts with it; issues with an empty
    path, a numeric first path element or an empty name are skipped,
    nothing is ever stored under "__proto__", and no property is ever set
    to [undefined]. *)
Theorem collect_errors_last_issue_wins (issues : list EmailAuth.issue)
    (f : string) :
  EmailAuth.collect_errors issues !! f
  = (if String.eqb f "" || String.eqb f "__proto__" then None
     else (fun i => Some (EmailAuth.message i))
            <$> last (List.filter (EmailAuth.names f) issues))
  ∧ EmailAuth.collect_errors issues !! f ≠ Some None.
Proof.
  split; [apply collect_errors_lookup |].
  rewrite collect_errors_lookup.
  destruct (_ || _); [discriminate |].
  destruct (last _); discriminate.
Qed.

Example collect_errors_example :
  let issues :=
    [{| EmailAuth.path := [EmailAuth.key "password"];
        EmailAuth.message := "too short" |};
     {| EmailAuth.path := []; EmailAuth.message := "form is invalid" |};
     {| EmailAuth.path := [EmailAuth.key "password"; EmailAuth.index 0];
        EmailAuth.message := "too common" |};
     {| EmailAuth.path := [EmailAuth.index 2]; EmailAuth.message := "odd" |}] in
  js.get (EmailAuth.collect_errors issues) "password" = Some "too common"
  ∧ js.get (EmailAuth.collect_errors issues) "email" = None.
Proof. split; reflexivity. Qed.

Lemma error_key_inj (i j : EmailAuth.input) :
  EmailAuth.error_key i = EmailAuth.error_key j → i = j.
Proof. destruct i, j; simpl; intros H; try reflexivity; discriminate. Qed.

(** X12. Typing into one input of the sign-up form keeps the text exactly
    as typed (neither trimmed nor validated), leaves that input without
    an error to show, and changes nothing else: the errors shown for the
    two other inputs, their texts and the submitting flag stay as they
    were. *)
Theorem typing_clears_own_error_only (i : EmailAuth.input) (value : string)
    (st : EmailAuth.form) :
  let st' := EmailAuth.onChangeText i value st in
  js.truthy (EmailAuth.shown_error st' i) = false
  ∧ (∀ j, j ≠ i → EmailAuth.shown_error st' j = EmailAuth.shown_error st j)
  ∧ EmailAuth.isSignUpSubmitting st' = EmailAuth.isSignUpSubmitting st
  ∧ match i with
    | EmailAuth.email_input =>
        EmailAuth.signUpEmailRef st' = value
        ∧ EmailAuth.signUpPasswordRef st' = EmailAuth.signUpPasswordRef st
        ∧ EmailAuth.signUpConfirmRef st' = EmailAuth.signUpConfirmRef st
    | EmailAuth.password_input =>
        EmailAuth.signUpEmailRef st' = EmailAuth.signUpEmailRef st
        ∧ EmailAuth.signUpPasswordRef st' = value
        ∧ EmailAuth.signUpConfirmRef st' = EmailAuth.signUpConfirmRef st
    | EmailAuth.confirm_input =>
        EmailAuth.signUpEmailRef st' = EmailAuth.signUpEmailRef st
        ∧ EmailAuth.signUpPasswordRef st' = EmailAuth.signUpPasswordRef st
        ∧ EmailAuth.signUpConfirmRef st' = value
    end.
Proof.
  intros st'. subst st'. unfold EmailAuth.onChangeText.
  destruct (js.truthy (EmailAuth.shown_error (EmailAuth.with_ref i value st) i))
    eqn:Htruthy.
  - repeat split.
    + unfold EmailAuth.shown_error, js.get. simpl.
      rewrite lookup_insert_eq. reflexivity.
    + intros j Hj. unfold EmailAuth.shown_error, js.get. simpl.
      rewrite lookup_insert_ne; [reflexivity |].
      intros Heq. apply Hj. symmetry. apply error_key_inj, Heq.
    + destruct i; repeat split; reflexivity.
  - repeat split.
    + exact Htruthy.
    + destruct i; repeat split; reflexivity.
Qed.

Lemma typing_clears_own_error_only_witness :
  let failed :=
    EmailAuth.press_sign_up (fun s => s) EmailAuth.example_safeParse
      (EmailAuth.onChangeText EmailAuth.password_input "abc" EmailAuth.blank_form)
      js.fulfilled in
  EmailAuth.shown_error failed EmailAuth.password_input
  = Some "Password must be at least 6 characters"
  ∧ EmailAuth.shown_error
      (EmailAuth.onChangeText EmailAuth.password_input "abcdef" failed)
      EmailAuth.confirm_input
    = Some "Passwords do not match"
  ∧ js.truthy
      (EmailAuth.shown_error
         (EmailAuth.onChangeText EmailAuth.password_input "abcdef" failed)
         EmailAuth.password_input)
    = false.
Proof.
  intros failed. split; [reflexivity |].
  destruct (typing_clears_own_error_only EmailAuth.password_input "abcdef" failed)
    as (Hown & Hothers & _).
  split; [| exact Hown].
  rewrite (Hothers EmailAuth.confirm_input) by discriminate.
  reflexivity.
Defined.

(** X13. Pressing "Sign Up".  When the schema rejects the form, no
    request is sent and no alert is shown, the submitting flag is left
    alone, and each of the three inputs shows the message of the last
    issue recorded for its field (none when there is no such issue).
    When the schema accepts it, exactly one [signUp] request goes out,
    with the trimmed e-mail and the password as typed (the confirmation
    never leaves the form), exactly one alert follows, no input shows an
    error, and the submitting flag ends lowered whether the request
    fulfils or rejects.  The typed texts are kept either way. *)
Theorem sign_up_press (trim : string -> string)
    (safeParse : EmailAuth.payload -> EmailAuth.safe_parse)
    (st : EmailAuth.form) (settles : js.settled) :
  let effects := EmailAuth.onSignUp trim safeParse st settles in
  let st' := EmailAuth.press_sign_up trim safeParse st settles in
  match safeParse (EmailAuth.current_payload trim st) with
  | EmailAuth.failure issues =>
      List.filter EmailAuth.is_request effects = []
      ∧ List.filter EmailAuth.is_alert effects = []
      ∧ (∀ i, EmailAuth.shown_error st' i
              = EmailAuth.message
                  <$> last (List.filter (EmailAuth.names (EmailAuth.error_key i))
                                        issues))
      ∧ EmailAuth.isSignUpSubmitting st' = EmailAuth.isSignUpSubmitting st
  | EmailAuth.success =>
      List.filter EmailAuth.is_request effects
      = [EmailAuth.signUp (trim (EmailAuth.signUpEmailRef st))
           (EmailAuth.signUpPasswordRef st)]
      ∧ List.filter EmailAuth.is_alert effects
        = [match settles with
           | js.fulfilled =>
               EmailAuth.Alert_alert "Check your email"
                 "We sent you a confirmation link to verify your account."
           | js.rejected error =>
               EmailAuth.Alert_alert "Sign Up Failed"
                 (js.message_or "An unexpected error occurred" error)
           end]
      ∧ (∀ i, EmailAuth.shown_error st' i = None)
      ∧ EmailAuth.isSignUpSubmitting st' = false
  end
  ∧ EmailAuth.signUpEmailRef st' = EmailAuth.signUpEmailRef st
  ∧ EmailAuth.signUpPasswordRef st' = EmailAuth.signUpPasswordRef st
  ∧ EmailAuth.signUpConfirmRef st' = EmailAuth.signUpConfirmRef st.
Proof.
  intros effects st'. subst effects st'.
  unfold EmailAuth.press_sign_up, EmailAuth.onSignUp.
  destruct (safeParse (EmailAuth.current_payload trim st)) as [| issues].
  - destruct settles as [| error]; repeat split; try reflexivity;
      intros i; unfold EmailAuth.shown_error, js.get; simpl;
      rewrite lookup_empty; reflexivity.
  - repeat split; try reflexivity.
    intros i. unfold EmailAuth.shown_error. simpl.
    rewrite collect_errors_get. destruct i; reflexivity.
Qed.

Example sign_up_press_example :
  let typed :=
    EmailAuth.onChangeText EmailAuth.confirm_input "secret1"
      (EmailAuth.onChangeText EmailAuth.password_input "secret1"
         (EmailAuth.onChangeText EmailAuth.email_input "a@example.com"
            EmailAuth.blank_form)) in
  EmailAuth.onSignUp (fun s => s) EmailAuth.example_safeParse typed
    (js.rejected (js.Error "User already registered"))
  = [EmailAuth.setSignUpErrors ∅;
     EmailAuth.setIsSignUpSubmitting true;
     EmailAuth.signUp "a@example.com" "secret1";
     EmailAuth.Alert_alert "Sign Up Failed" "User already registered";
     EmailAuth.setIsSignUpSubmitting false].
Proof. reflexivity. Qed.

(** ** Social sign-in *)

(** X14. A cancelled Apple sign-in is silent, a cancelled Google sign-in
    is not.  [onAppleSignIn] shows an alert exactly when the sign-in
    rejects with anything but an [Error] whose message is
    "Sign in was cancelled"; [onGoogleSignIn] shows one for every
    rejection.  Neither shows more than one, and where both show one the
    message is the same: the error's own, or the fallback text for a
    value that is not an [Error]. *)
Theorem social_sign_in_alerts (settles : js.settled) :
  let apple := List.filter Onboarding.is_alert (Onboarding.onAppleSignIn settles) in
  let google := List.filter Onboarding.is_alert (Onboarding.onGoogleSignIn settles) in
  (apple ≠ []
   ↔ ∃ error, settles = js.rejected error
              ∧ error ≠ js.Error "Sign in was cancelled")
  ∧ (google ≠ [] ↔ ∃ error, settles = js.rejected error)
  ∧ (∀ error, settles = js.rejected error →
       google = [Onboarding.Alert_alert "Google Sign In Failed"
                   (js.message_or "An unexpected error occurred" error)]
       ∧ (error ≠ js.Error "Sign in was cancelled" →
          apple = [Onboarding.Alert_alert "Apple Sign In Failed"
                     (js.message_or "An unexpected error occurred" error)]))
  ∧ (length apple ≤ 1)%nat ∧ (length google ≤ 1)%nat.
Proof.
  intros apple google. subst apple google.
  destruct settles as [| [message |]]; simpl.
  - split; [| split; [| split; [| split]]]; try lia.
    + split; [intros H; destruct H; reflexivity |].
      intros (error & Heq & _). discriminate.
    + split; [intros H; destruct H; reflexivity |].
      intros (error & Heq). discriminate.
    + intros error Heq. discriminate.
  - destruct (String.eqb_spec message "Sign in was cancelled") as [-> | Hne]; simpl.
    + split; [| split; [| split; [| split]]]; try lia.
      * split; [intros H; destruct H; reflexivity |].
        intros (error & [= <-] & Hother). contradiction.
      * split; [eauto | discriminate].
      * intros error [= <-]. split; [reflexivity |].
        intros Hother. contradiction.
    + split; [| split; [| split; [| split]]]; try lia.
      * split; [| discriminate].
        intros _. exists (js.Error message). split; [reflexivity | congruence].
      * split; [eauto | discriminate].
      * intros error [= <-]. split; reflexivity.
  - split; [| split; [| split; [| split]]]; try lia.
    + split; [| discriminate].
      intros _. exists js.not_an_Error. split; [reflexivity | discriminate].
    + split; [eauto | discriminate].
    + intros error [= <-]. split; reflexivity.
Qed.

Lemma social_sign_in_alerts_witness :
  List.filter Onboarding.is_alert
    (Onboarding.onAppleSignIn (js.rejected (js.Error "Sign in was cancelled")))
  = []
  ∧ List.filter Onboarding.is_alert
      (Onboarding.onGoogleSignIn (js.rejected (js.Error "Sign in was cancelled")))
    = [Onboarding.Alert_alert "Google Sign In Failed" "Sign in was cancelled"]
  ∧ List.filter Onboarding.is_alert
      (Onboarding.onAppleSignIn (js.rejected js.not_an_Error))
    = [Onboarding.Alert_alert "Apple Sign In Failed" "An unexpected error occurred"].
Proof.
  split; [reflexivity |]. split.
  - destruct (social_sign_in_alerts
                (js.rejected (js.Error "Sign in was cancelled")))
      as (_ & _ & Hboth & _).
    exact (proj1 (Hboth _ eq_refl)).
  - destruct (social_sign_in_alerts (js.rejected js.not_an_Error))
      as (_ & _ & Hboth & _).
    apply (proj2 (Hboth _ eq_refl)). discriminate.
Defined.

(** ** Refreshing a push token *)

Lemma update_rows_skip `{T : Table row tuple} who e w assign
    (pre done todo : list row) :
  Forall (fun r => targets who UPDATE w r = false) pre →
  update_rows who e w assign done (pre ++ todo)
  = match update_rows who e w assign (done ++ pre) todo with
    | Ok (out, changed) => Ok (pre ++ out, changed)
    | Err x => Err x
    end.
Proof.
  intros Hpre. revert done.
  induction Hpre as [| r pre Hr _ IH]; intros done; simpl.
  - rewrite app_nil_r. destruct (update_rows _ _ _ _ _ _) as [[out ch] |]; reflexivity.
  - rewrite Hr, IH. rewrite <- app_assoc. simpl.
    destruct (update_rows _ _ _ _ _ _) as [[out ch] |]; reflexivity.
Qed.

(** An UPDATE that targets one row stands or falls with that row. *)
Lemma update_rows_single `{T : Table row tuple} who e w assign
    (pre post : list row) (r : row) :
  Forall (fun r => targets who UPDATE w r = false) pre →
  Forall (fun r => targets who UPDATE w r = false) post →
  targets who UPDATE w r = true →
  update_rows who e w assign [] (pre ++ r :: post)
  = match update_row who e assign r (pre ++ post) with
    | Ok new => Ok (pre ++ new :: post, [(r, new)])
    | Err x => Err x
    end.
Proof.
  intros Hpre Hpost Hr. rewrite update_rows_skip by assumption. simpl.
  rewrite Hr. destruct (update_row who e assign r (pre ++ post)) as [new |];
    simpl; [| reflexivity].
  rewrite update_rows_untargeted by assumption. reflexivity.
Qed.

Lemma devices_update_row_eq who e assign (old : devices.row) others :
  update_row who e assign old others
  = if check_passes who public_devices UPDATE
         (devices.cols (devices.touch (Some (NOW e)) (assign old)))
       && using_passes who public_devices SELECT
            (devices.cols (devices.touch (Some (NOW e)) (assign old)))
    then match devices.check_not_null
                 (devices.touch (Some (NOW e)) (assign old)) with
         | Err x => Err x
         | Ok r =>
             match violated_index r others with
             | Some conname => Err (unique_violation conname)
             | None => Ok r
             end
         end
    else Err (insufficient_privilege "devices").
Proof.
  unfold update_row, check_unique, handle_updated_at.
  simpl relid. simpl uuid_cols. simpl not_null. simpl relname. simpl set_updated_at.
  destruct (_ && _); [| reflexivity].
  destruct (devices.check_not_null _) as [r |]; reflexivity.
Qed.

(** X15. Refreshing a token goes through the unique index too.  On a
    database where [devices_pkey] holds, when identity A sets the
    [fcm_token] of one of its devices, the UPDATE is rejected with the
    unique violation on [devices_user_id_fcm_token_key], and nothing
    changes, if another of A's devices already has that token; otherwise
    it succeeds, affects exactly that one row, and stores it with the new
    token and [updated_at] = NOW(), every other row staying in place. *)
Theorem token_refresh (A : uuid) (e : env) (s : db) (pre post : list devices.row)
    (r : devices.row) (token : text)
    (Hpk : NoDup (devices.id <$> tbl_devices s))
    (Hr : tbl_devices s = pre ++ r :: post)
    (Hown : devices.user_id r = A) :
  let stmt := UpdateDevices (fun d => N.eqb (devices.id d) (devices.id r))
                            (set_fcm_token token) in
  ((∃ d, d ∈ pre ++ post ∧ devices.user_id d = A ∧ devices.fcm_token d = token) →
   execute (Authenticated A) e stmt s
   = (raised (unique_violation "devices_user_id_fcm_token_key"), s))
  ∧ ((∀ d, d ∈ pre ++ post →
           devices.user_id d ≠ A ∨ devices.fcm_token d ≠ token) →
     execute (Authenticated A) e stmt s
     = (affected 1,
        {| tbl_users := tbl_users s;
           tbl_devices :=
             pre ++
             {| devices.id := devices.id r;
                devices.user_id := A;
                devices.fcm_token := token;
                devices.created_at := devices.created_at r;
                devices.updated_at := Some (NOW e) |} :: post |})).
Proof.
  intros stmt. subst stmt.
  rewrite Hr, fmap_app in Hpk. simpl in Hpk.
  apply NoDup_middle in Hpk as [Hfresh _]. rewrite <- fmap_app in Hfresh.
  assert (Hothers : ∀ d, d ∈ pre ++ post → devices.id d ≠ devices.id r).
  { intros d Hd Heq. apply Hfresh. rewrite <- Heq.
    apply list_elem_of_fmap_2, Hd. }
  assert (Hskip : ∀ l, (∀ d, d ∈ l → d ∈ pre ++ post) →
            Forall (fun d => targets (Authenticated A) UPDATE
                               (fun d => N.eqb (devices.id d) (devices.id r)) d
                             = false) l).
  { intros l Hl. apply Forall_forall. intros d Hd.
    rewrite targets_devices by congruence.
    replace (N.eqb (devices.id d) (devices.id r)) with false;
      [apply andb_false_r |].
    symmetry. apply N.eqb_neq, Hothers, Hl, Hd. }
  set (new := {| devices.id := devices.id r; devices.user_id := A;
                 devices.fcm_token := token;
                 devices.created_at := devices.created_at r;
                 devices.updated_at := Some (NOW e) |}).
  assert (Hrows :
            update_rows (Authenticated A) e
              (fun d => N.eqb (devices.id d) (devices.id r))
              (set_fcm_token token) [] (pre ++ r :: post)
            = match violated_index new (pre ++ post) with
              | Some conname => Err (unique_violation conname)
              | None => Ok (pre ++ new :: post, [(r, new)])
              end).
  { rewrite update_rows_single.
    - rewrite devices_update_row_eq.
      rewrite check_passes_devices, using_passes_devices by (auto; congruence).
      simpl. rewrite Hown, N.eqb_refl. simpl.
      fold new. destruct (violated_index new (pre ++ post)); reflexivity.
    - apply Hskip. intros d Hd. apply elem_of_app. auto.
    - apply Hskip. intros d Hd. apply elem_of_app. auto.
    - rewrite targets_devices by congruence.
      rewrite Hown, !N.eqb_refl. reflexivity. }
  assert (Hpkey : existsb (devices.devices_pkey new) (pre ++ post) = false).
  { apply pkey_free. intros d Hd. simpl. apply Hothers, Hd. }
  split.
  - intros Hdup. cbn [execute]. unfold update_devices.
    rewrite Hr, Hrows, devices_violated_index, Hpkey.
    replace (existsb (devices.devices_user_id_fcm_token_key new) (pre ++ post))
      with true; [reflexivity |].
    symmetry. apply pair_collides. exact Hdup.
  - intros Hnew. cbn [execute]. unfold update_devices.
    rewrite Hr, Hrows, devices_violated_index, Hpkey.
    replace (existsb (devices.devices_user_id_fcm_token_key new) (pre ++ post))
      with false.
    + simpl. unfold owner_update_allowed. simpl.
      rewrite Hown, N.eqb_refl. reflexivity.
    + symmetry. apply not_true_is_false. rewrite pair_collides.
      intros (d & Hd & Hdu & Hdt). destruct (Hnew d Hd); auto.
Qed.

Lemma token_refresh_witness :
  tbl_devices db_backdated = [u1_device; u1_second_device]
  ∧ fst (execute (Authenticated u1) t2
           (UpdateDevices
              (fun d => N.eqb (devices.id d) (devices.id u1_second_device))
              (set_fcm_token "tok-1"))
           db_backdated)
    = raised (unique_violation "devices_user_id_fcm_token_key")
  ∧ fst (execute (Authenticated u1) t2
           (UpdateDevices
              (fun d => N.eqb (devices.id d) (devices.id u1_second_device))
              (set_fcm_token "tok-3"))
           db_backdated)
    = affected 1.
Proof.
  assert (Hpk : NoDup (devices.id <$> tbl_devices db_backdated)).
  { apply NoDup_cons. split; [| apply NoDup_singleton].
    intros Hin%list_elem_of_singleton. discriminate. }
  split; [reflexivity |]. split.
  - rewrite (proj1 (token_refresh u1 t2 db_backdated [u1_device] []
                      u1_second_device "tok-1" Hpk eq_refl eq_refl));
      [reflexivity |].
    exists u1_device. split; [apply list_elem_of_here | split; reflexivity].
  - rewrite (proj2 (token_refresh u1 t2 db_backdated [u1_device] []
                      u1_second_device "tok-3" Hpk eq_refl eq_refl));
      [reflexivity |].
    intros d Hd. apply list_elem_of_singleton in Hd. subst d.
    right. discriminate.
Defined.
